(** * A shallow embedding of the continuous-trading matching engine

    The development follows the C++ sources:
    - [Instrument] and [State]          (Instrument.hpp)
    - [Order] and its validators       (Order.hpp, Order.cpp)
    - [Trade]                          (Trading.hpp)
    - [isUniqueInstrument]             (Utils.cpp)
    - [InstrumentManager]              (InstrumentManager.cpp)
    - [OrderBook]                      (OrderBook.hpp, OrderBook.cpp)
    - [MatchingEngine]                 (MatchingEngine.hpp, MatchingEngine.cpp)

    Conventions of the embedding.
    - [int] fields are integers in [Z].  Order quantities and identifiers are
      plain [Z] (signed overflow has no defined behaviour in C++); the
      [std::atomic<int>] counters wrap around, which [wrap_int] writes out.
    - [double] prices and volumes are idealised as exact rationals [Q]:
      rounding error, infinities and NaN are outside the model.
    - [std::chrono::system_clock::time_point] is a number of nanoseconds in
      [Z]; every reading of the clock is a parameter ([now], [now_reset],
      ...); the trades of one sweep are stamped with one reading.
    - The 50-character buffer of [Instrument::name] is a string.
    - [std::map<double, std::deque<Order>, Cmp>] is an association list kept
      sorted by [Cmp], its head being [begin()].
    - Console output is not modelled.
    - The worker thread is modelled by the body of its loop, one iteration
      at a time; the interleaving with submitters is not modelled. *)

From Stdlib Require Import ZArith QArith Qround Qabs Lia Lqa Sorting.Sorted.
From stdpp Require Import base decidable option list sorting gmap strings.

Local Open Scope Z_scope.

(** ** Data model *)

Inductive State := ACTIVE | INACTIVE | SUSPENDED | DELISTED.

Inductive TimeInForce := GTD | DAY.

Inductive OrderType := BID | ASK.

Inductive LimitType := LIMIT | NONE.

Module Instrument.
Record t := mk {
  idinstrument : Z;
  marketIdentificationCode : string;
  tradingCurrency : string;
  name : string;
  issue : Z;
  state : State;
  refprice : Q;
  idtradinggroup : Z;
  lotsize : Z;
  pricedecimal : Z;
  currentorderid : Z;
  currenttradeid : Z;
  idapf : Z
}.
End Instrument.

Module Order.
Record t := mk {
  idorder : Z;
  marketIdentificationCode : string;
  tradingCurrency : string;
  priority : Z;
  expirationDate : Z;
  price : Q;
  quantity : Z;
  originalqty : Z;
  timeinforce : TimeInForce;
  ordertype : OrderType;
  limitType : LimitType;
  idinstrument : Z;
  idfirm : Z
}.

(** [order.quantity = q], every other field kept. *)
Definition with_quantity (o : t) (q : Z) : t :=
  mk (idorder o) (marketIdentificationCode o) (tradingCurrency o)
     (priority o) (expirationDate o) (price o) q (originalqty o)
     (timeinforce o) (ordertype o) (limitType o) (idinstrument o) (idfirm o).
End Order.

Module Trade.
Record t := mk {
  tradeId : Z;
  buyOrderId : Z;
  sellOrderId : Z;
  marketIdentificationCode : string;
  tradingCurrency : string;
  price : Q;
  quantity : Z;
  timestamp : Z
}.
End Trade.

(** The anonymous [stats] struct of [MatchingEngine]. *)
Record Stats := mkStats {
  dailyTradeCount : Z;
  dailyVolume : Q;
  lastReset : Z;
  totalTradeCount : Z;
  totalVolume : Q;
  matchingAttempts : Z;
  successfulMatches : Z
}.

(** ** Arithmetic of the machine types *)

(** Two's complement wrap-around of a 32-bit [int]. *)
Definition wrap_int (x : Z) : Z := (x + 2147483648) mod 4294967296 - 2147483648.

(** [std::atomic<int>::fetch_add]: the stored value after the addition. *)
Definition fetch_add (c d : Z) : Z := wrap_int (c + d).

Definition Qltb (a b : Q) : bool :=
  match (a ?= b)%Q with Lt => true | _ => false end.

(** [std::round]: nearest integer, halves away from zero. *)
Definition Qround (q : Q) : Z :=
  if Qle_bool 0 q then Qfloor (q + (1 # 2)) else - Qfloor (- q + (1 # 2)).

(** [std::chrono::hours(h)] and [std::chrono::seconds(s)] in nanoseconds. *)
Definition seconds (s : Z) : Z := s * 1000000000.
Definition hours (h : Z) : Z := seconds (h * 3600).

(** ** Order validators (Order.cpp) *)

Definition tolerance : Q := 1 # 100000000.

Definition validatePrice (o : Order.t) (i : Instrument.t) : bool :=
  if Qle_bool (Order.price o) 0 then false
  else
    let precisionFactor := Qpower (inject_Z 10) (Instrument.pricedecimal i) in
    let multipliedPrice := (Order.price o * precisionFactor)%Q in
    let roundedPrice := inject_Z (Qround multipliedPrice) in
    if Qltb tolerance (Qabs (multipliedPrice - roundedPrice)) then false
    else true.

(** [None] is the integer division by zero of [quantity % lotsize] when the
    instrument has a lot size of zero. *)
Definition validateQuantity (o : Order.t) (i : Instrument.t) : option bool :=
  if Order.quantity o <=? 0 then Some false
  else if negb (Z.rem (Order.quantity o) 1 =? 0) then Some false
  else if Instrument.lotsize i =? 0 then None
  else if negb (Z.rem (Order.quantity o) (Instrument.lotsize i) =? 0) then Some false
  else Some true.

(** ** Instrument registry (Utils.cpp, InstrumentManager.cpp) *)

Definition InstrumentKey : Type := Z * string * string.

Definition instrument_key (i : Instrument.t) : InstrumentKey :=
  (Instrument.idinstrument i, Instrument.marketIdentificationCode i,
   Instrument.tradingCurrency i).

Record InstrumentManager := mkInstrumentManager {
  instrumentSet : gset InstrumentKey;
  instruments : list Instrument.t
}.

Definition InstrumentManager_new : InstrumentManager :=
  mkInstrumentManager ∅ [].

Definition isUniqueInstrument (s : gset InstrumentKey) (i : Instrument.t) : bool :=
  bool_decide (instrument_key i ∉ s).

Definition addInstrument (im : InstrumentManager) (i : Instrument.t)
  : bool * InstrumentManager :=
  if isUniqueInstrument (instrumentSet im) i then
    (true, mkInstrumentManager ({[ instrument_key i ]} ∪ instrumentSet im)
                               (instruments im ++ [i]))
  else (false, im).

Definition getInstruments (im : InstrumentManager) : list Instrument.t :=
  instruments im.

(** A sequence of registrations, with the value each call returned. *)
Fixpoint addInstruments (im : InstrumentManager) (l : list Instrument.t)
  : list bool * InstrumentManager :=
  match l with
  | [] => ([], im)
  | i :: rest =>
      let '(r, im1) := addInstrument im i in
      let '(rs, im2) := addInstruments im1 rest in
      (r :: rs, im2)
  end.

(** ** Order book (OrderBook.hpp, OrderBook.cpp) *)

(** One side of the book: price levels in the order of the map's
    comparator, each with its queue. *)
Definition Side : Type := list (Q * list Order.t).

Record OrderBook := mkOrderBook {
  bidOrders : Side;        (* std::greater<double> *)
  askOrders : Side;        (* std::less<double> *)
  trades : list Trade.t;
  nextTradeId : Z;
  matchingEngine : bool    (* the back-pointer is set / is null *)
}.

Definition OrderBook_new : OrderBook := mkOrderBook [] [] [] 1 false.

Definition setMatchingEngine (ob : OrderBook) : OrderBook :=
  mkOrderBook (bidOrders ob) (askOrders ob) (trades ob) (nextTradeId ob) true.

Definition bid_cmp (a b : Q) : bool := Qltb b a.
Definition ask_cmp (a b : Q) : bool := Qltb a b.

(** [m[p].push_back(o)] on a map ordered by [cmp]. *)
Fixpoint level_push_back (cmp : Q -> Q -> bool) (p : Q) (o : Order.t) (m : Side) : Side :=
  match m with
  | [] => [(p, [o])]
  | (k, q) :: rest =>
      if cmp k p then (k, q) :: level_push_back cmp p o rest
      else if cmp p k then (p, [o]) :: (k, q) :: rest
      else (k, q ++ [o]) :: rest
  end.

Definition addOrder (ob : OrderBook) (o : Order.t) : OrderBook :=
  match Order.ordertype o with
  | BID => mkOrderBook (level_push_back bid_cmp (Order.price o) o (bidOrders ob))
                       (askOrders ob) (trades ob) (nextTradeId ob) (matchingEngine ob)
  | ASK => mkOrderBook (bidOrders ob)
                       (level_push_back ask_cmp (Order.price o) o (askOrders ob))
                       (trades ob) (nextTradeId ob) (matchingEngine ob)
  end.

Definition executed (o : Order.t) : bool := Order.quantity o =? 0.

(** One of the two loops of [cleanupExecutedOrders]. *)
Fixpoint cleanup_side (m : Side) : Side :=
  match m with
  | [] => []
  | (k, q) :: rest =>
      let q' := filter (λ o, negb (executed o)) q in
      match q' with
      | [] => cleanup_side rest
      | _ :: _ => (k, q') :: cleanup_side rest
      end
  end.

Definition cleanupExecutedOrders (ob : OrderBook) : OrderBook :=
  mkOrderBook (cleanup_side (bidOrders ob)) (cleanup_side (askOrders ob))
              (trades ob) (nextTradeId ob) (matchingEngine ob).

Definition getLastTrade (ob : OrderBook) : option Trade.t := last (trades ob).

(** ** Statistics (MatchingEngine.cpp) *)

Definition updateStats (t : Trade.t) (s : Stats) : Stats :=
  let tradeValue := (inject_Z (Trade.quantity t) * Trade.price t)%Q in
  mkStats (fetch_add (dailyTradeCount s) 1)
          (dailyVolume s + tradeValue)%Q
          (lastReset s)
          (fetch_add (totalTradeCount s) 1)
          (totalVolume s + tradeValue)%Q
          (matchingAttempts s)
          (fetch_add (successfulMatches s) 1).

Definition resetDailyStats (now : Z) (s : Stats) : Stats :=
  mkStats 0 0 now (totalTradeCount s) (totalVolume s) 0 0.

Definition zero_stats (now : Z) : Stats := mkStats 0 0 now 0 0 0 0.

(** [OrderBook::notifyMatch]; [attached] is the back-pointer being set. *)
Definition notifyMatch (attached : bool) (t : Trade.t) (s : Stats) : Stats :=
  if attached then updateStats t s else s.

(** ** The matching sweep (OrderBook::matchOrders) *)

Definition compatible (b a : Order.t) : bool :=
  (Order.idinstrument b =? Order.idinstrument a)
  && bool_decide (Order.marketIdentificationCode b = Order.marketIdentificationCode a)
  && bool_decide (Order.tradingCurrency b = Order.tradingCurrency a).

(** What a sweep writes besides the queues: the trade log, the trade
    counter, the engine's statistics and the local [tradesExecuted]. *)
Record MatchState := mkMatchState {
  ms_trades : list Trade.t;
  ms_nextTradeId : Z;
  ms_stats : Stats;
  ms_tradesExecuted : Z
}.

Definition make_trade (now id : Z) (b a : Order.t) : Trade.t :=
  Trade.mk id (Order.idorder b) (Order.idorder a)
           (Order.marketIdentificationCode b) (Order.tradingCurrency b)
           (Order.price a) (Z.min (Order.quantity b) (Order.quantity a)) now.

(** The body of the compatibility test, up to the update of the two
    orders and of [tradesExecuted]. *)
Definition execute_trade (now : Z) (attached : bool) (b a : Order.t) (ms : MatchState)
  : Order.t * Order.t * MatchState :=
  let tradeQuantity := Z.min (Order.quantity b) (Order.quantity a) in
  let trade := make_trade now (ms_nextTradeId ms) b a in
  (Order.with_quantity b (Order.quantity b - tradeQuantity),
   Order.with_quantity a (Order.quantity a - tradeQuantity),
   mkMatchState (ms_trades ms ++ [trade]) (ms_nextTradeId ms + 1)
                (notifyMatch attached trade (ms_stats ms))
                (ms_tradesExecuted ms + 1)).

(** The inner [for] loop: one bid against the ask queue.  The flag is
    [matchFound]. *)
Fixpoint scan_asks (now : Z) (attached : bool) (b : Order.t) (asks : list Order.t)
    (ms : MatchState) : Order.t * list Order.t * MatchState * bool :=
  match asks with
  | [] => (b, [], ms, false)
  | a :: rest =>
      if compatible b a then
        let '(b1, a1, ms1) := execute_trade now attached b a ms in
        if (Order.quantity b1 =? 0) || (Order.quantity a1 =? 0) then
          (b1, a1 :: rest, ms1, true)
        else
          let '(b2, rest2, ms2, _) := scan_asks now attached b1 rest ms1 in
          (b2, a1 :: rest2, ms2, true)
      else
        let '(b2, rest2, ms2, found) := scan_asks now attached b rest ms in
        (b2, a :: rest2, ms2, found)
  end.

(** The outer [for] loop over the bid queue, left at the first match. *)
Fixpoint scan_bids (now : Z) (attached : bool) (bids asks : list Order.t)
    (ms : MatchState) : list Order.t * list Order.t * MatchState * bool :=
  match bids with
  | [] => ([], asks, ms, false)
  | b :: rest =>
      let '(b1, asks1, ms1, found) := scan_asks now attached b asks ms in
      if found then (b1 :: rest, asks1, ms1, true)
      else
        let '(rest2, asks2, ms2, found2) := scan_bids now attached rest asks1 ms1 in
        (b1 :: rest2, asks2, ms2, found2)
  end.

(** The [while] loop; [fuel] bounds the number of iterations. *)
Fixpoint matchOrders_loop (fuel : nat) (now : Z) (attached : bool)
    (bids asks : Side) (ms : MatchState) : option (Side * Side * MatchState) :=
  match bids, asks with
  | (bp, bq) :: brest, (ap, aq) :: arest =>
      if Qltb bp ap then Some (bids, asks, ms)
      else
        let '(bq1, aq1, ms1, matchFound) := scan_bids now attached bq aq ms in
        let bids1 := cleanup_side ((bp, bq1) :: brest) in
        let asks1 := cleanup_side ((ap, aq1) :: arest) in
        if matchFound then
          match fuel with
          | O => None
          | S fuel' => matchOrders_loop fuel' now attached bids1 asks1 ms1
          end
        else Some (bids1, asks1, ms1)
  | _, _ => Some (bids, asks, ms)
  end.

(** Resting orders of a side, in the order of traversal. *)
Definition side_orders (m : Side) : list Order.t := concat (map snd m).

Definition book_orders (ob : OrderBook) : list Order.t :=
  side_orders (bidOrders ob) ++ side_orders (askOrders ob).

(** Every iteration that goes round the loop again removes an order, so
    as many iterations as resting orders are enough. *)
Definition matchOrders (now : Z) (ob : OrderBook) (s : Stats)
  : option (Z * OrderBook * Stats) :=
  match matchOrders_loop (length (book_orders ob)) now (matchingEngine ob)
          (bidOrders ob) (askOrders ob)
          (mkMatchState (trades ob) (nextTradeId ob) s 0) with
  | Some (bids, asks, ms) =>
      Some (ms_tradesExecuted ms,
            mkOrderBook bids asks (ms_trades ms) (ms_nextTradeId ms) (matchingEngine ob),
            ms_stats ms)
  | None => None
  end.

(** The sweep as a relation between the state at the head of the [while]
    loop and the state at its exit: one constructor per way through the
    loop body.  The list is the (bid, ask) pairs that traded, as they were
    when the scan selected them. *)
Inductive sweep (now : Z) (attached : bool)
  : Side -> Side -> MatchState -> list (Order.t * Order.t)
    -> Side -> Side -> MatchState -> Prop :=
| sweep_bids_empty asks ms :
    sweep now attached [] asks ms [] [] asks ms
| sweep_asks_empty bids ms :
    sweep now attached bids [] ms [] bids [] ms
| sweep_uncrossed bp bq brest ap aq arest ms :
    (bp < ap)%Q ->
    sweep now attached ((bp, bq) :: brest) ((ap, aq) :: arest) ms []
                       ((bp, bq) :: brest) ((ap, aq) :: arest) ms
| sweep_no_match bp bq brest ap aq arest ms :
    (ap <= bp)%Q ->
    (forall b a, b ∈ bq -> a ∈ aq -> compatible b a = false) ->
    sweep now attached ((bp, bq) :: brest) ((ap, aq) :: arest) ms []
                       (cleanup_side ((bp, bq) :: brest))
                       (cleanup_side ((ap, aq) :: arest)) ms
| sweep_match bp bpre b bpost brest ap apre a apost arest ms b1 a1 ms1 sel bids' asks' ms' :
    (ap <= bp)%Q ->
    (forall x y, x ∈ bpre -> y ∈ apre ++ a :: apost -> compatible x y = false) ->
    (forall y, y ∈ apre -> compatible b y = false) ->
    compatible b a = true ->
    execute_trade now attached b a ms = (b1, a1, ms1) ->
    sweep now attached (cleanup_side ((bp, bpre ++ b1 :: bpost) :: brest))
                       (cleanup_side ((ap, apre ++ a1 :: apost) :: arest)) ms1
                       sel bids' asks' ms' ->
    sweep now attached ((bp, bpre ++ b :: bpost) :: brest)
                       ((ap, apre ++ a :: apost) :: arest) ms
                       ((b, a) :: sel) bids' asks' ms'.

(** The trades of a list of selected pairs, numbered from [id]. *)
Fixpoint trades_from (now id : Z) (sel : list (Order.t * Order.t)) : list Trade.t :=
  match sel with
  | [] => []
  | (b, a) :: rest => make_trade now id b a :: trades_from now (id + 1) rest
  end.

(** ** Matching engine (MatchingEngine.hpp, MatchingEngine.cpp) *)

Record MatchingEngine := mkMatchingEngine {
  orderBook : OrderBook;
  instrumentManager : InstrumentManager;
  isRunning : bool;
  stats : Stats
}.

(** The constructor; [now] is the clock read for [lastReset]. *)
Definition MatchingEngine_new (now : Z) (ob : OrderBook) (im : InstrumentManager)
  : MatchingEngine :=
  mkMatchingEngine (setMatchingEngine ob) im false (zero_stats now).

(** [start]: the worker itself is [run_iteration] below. *)
Definition start (now : Z) (e : MatchingEngine) : MatchingEngine :=
  if negb (isRunning e) then
    mkMatchingEngine (orderBook e) (instrumentManager e) true (zero_stats now)
  else e.

Definition stop (e : MatchingEngine) : MatchingEngine :=
  if isRunning e then
    mkMatchingEngine (orderBook e) (instrumentManager e) false (stats e)
  else e.

Definition isEngineRunning (e : MatchingEngine) : bool := isRunning e.

(** The predicate given to [std::remove_if] in [checkGTDOrders]. *)
Definition expired (now : Z) (o : Order.t) : bool :=
  match Order.timeinforce o with
  | GTD => Order.expirationDate o <=? now
  | DAY => false
  end.

(** One of the two loops of [checkGTDOrders]: the queues are filtered in
    place, the price levels stay. *)
Definition expire_side (now : Z) (m : Side) : Side :=
  (λ l, (l.1, filter (λ o, negb (expired now o)) l.2)) <$> m.

Definition checkGTDOrders (now : Z) (e : MatchingEngine) : MatchingEngine :=
  let ob := orderBook e in
  mkMatchingEngine
    (mkOrderBook (expire_side now (bidOrders ob)) (expire_side now (askOrders ob))
                 (trades ob) (nextTradeId ob) (matchingEngine ob))
    (instrumentManager e) (isRunning e) (stats e).

Definition instrument_matches (i : Instrument.t) (o : Order.t) : bool :=
  (Instrument.idinstrument i =? Order.idinstrument o)
  && bool_decide (Instrument.marketIdentificationCode i = Order.marketIdentificationCode o)
  && bool_decide (Instrument.tradingCurrency i = Order.tradingCurrency o).

(** The accepting branch of [addAndValidateOrder]: insertion, immediate
    sweep, and the statistics update on the last trade. *)
Definition accept_order (now : Z) (e : MatchingEngine) (o : Order.t)
  : option MatchingEngine :=
  match matchOrders now (addOrder (orderBook e) o) (stats e) with
  | Some (matches, ob1, s1) =>
      let s2 :=
        if 0 <? matches then
          match getLastTrade ob1 with
          | Some lastTrade => updateStats lastTrade s1
          | None => s1
          end
        else s1 in
      Some (mkMatchingEngine ob1 (instrumentManager e) (isRunning e) s2)
  | None => None
  end.

(** The loop of [addAndValidateOrder] over the registered instruments. *)
Fixpoint addAndValidateOrder_from (now : Z) (e : MatchingEngine) (o : Order.t)
    (l : list Instrument.t) : option (bool * MatchingEngine) :=
  match l with
  | [] => Some (false, e)
  | i :: rest =>
      if instrument_matches i o then
        if validatePrice o i then
          match validateQuantity o i with
          | Some true =>
              match accept_order now e o with
              | Some e1 => Some (true, e1)
              | None => None
              end
          | Some false => Some (false, e)
          | None => None
          end
        else Some (false, e)
      else addAndValidateOrder_from now e o rest
  end.

Definition addAndValidateOrder (now : Z) (e : MatchingEngine) (o : Order.t)
  : option (bool * MatchingEngine) :=
  addAndValidateOrder_from now e o (getInstruments (instrumentManager e)).

(** The local variables of [run]. *)
Record WorkerClock := mkWorkerClock {
  lastStatusUpdate : Z;
  lastGTDCheck : Z;
  lastStatsReset : Z
}.

(** First step of an iteration of [run]: the daily reset.  [now] is the
    clock read at the head of the iteration, [now_reset] the one
    [resetDailyStats] reads. *)
Definition daily_reset_due (now : Z) (w : WorkerClock) : bool :=
  hours 24 <? now - lastStatsReset w.

Definition daily_reset_step (now now_reset : Z) (w : WorkerClock) (e : MatchingEngine)
  : WorkerClock * MatchingEngine :=
  if daily_reset_due now w then
    (mkWorkerClock (lastStatusUpdate w) (lastGTDCheck w) now,
     mkMatchingEngine (orderBook e) (instrumentManager e) (isRunning e)
                      (resetDailyStats now_reset (stats e)))
  else (w, e).

(** Second step: the background sweep; [now] is the clock its trades
    are stamped with. *)
Definition matching_step (now : Z) (e : MatchingEngine) : option MatchingEngine :=
  let s0 := stats e in
  let s1 := mkStats (dailyTradeCount s0) (dailyVolume s0) (lastReset s0)
                    (totalTradeCount s0) (totalVolume s0)
                    (fetch_add (matchingAttempts s0) 1) (successfulMatches s0) in
  match matchOrders now (orderBook e) s1 with
  | Some (matches, ob1, s2) =>
      let s3 :=
        if 0 <? matches then
          mkStats (dailyTradeCount s2) (dailyVolume s2) (lastReset s2)
                  (totalTradeCount s2) (totalVolume s2)
                  (matchingAttempts s2) (fetch_add (successfulMatches s2) matches)
        else s2 in
      Some (mkMatchingEngine ob1 (instrumentManager e) (isRunning e) s3)
  | None => None
  end.

(** Third step: the hourly expiry sweep; [now_gtd] is the clock
    [checkGTDOrders] reads. *)
Definition gtd_step (now now_gtd : Z) (w : WorkerClock) (e : MatchingEngine)
  : WorkerClock * MatchingEngine :=
  if hours 1 <? now - lastGTDCheck w then
    (mkWorkerClock (lastStatusUpdate w) now (lastStatsReset w), checkGTDOrders now_gtd e)
  else (w, e).

(** Fourth step: the periodic status display only moves its own clock. *)
Definition status_step (now : Z) (w : WorkerClock) : WorkerClock :=
  if seconds 30 <? now - lastStatusUpdate w then
    mkWorkerClock now (lastGTDCheck w) (lastStatsReset w)
  else w.

(** One iteration of the [while (isRunning)] loop of [run]. *)
Definition run_iteration (now now_reset now_match now_gtd : Z)
    (w : WorkerClock) (e : MatchingEngine) : option (WorkerClock * MatchingEngine) :=
  let '(w1, e1) := daily_reset_step now now_reset w e in
  match matching_step now_match e1 with
  | Some e2 =>
      let '(w2, e3) := gtd_step now now_gtd w1 e2 in
      Some (status_step now w2, e3)
  | None => None
  end.

(** ** Scenario data *)

Definition XPAR : string := "XPAR".
Definition EUR : string := "EUR".

Definition instr (id : Z) : Instrument.t :=
  Instrument.mk id XPAR EUR "I" 20220101 ACTIVE 150 1001 100 2 1 1 2022.

Definition day_order (id : Z) (side : OrderType) (inst : Z) (p : Q) (q ts : Z) : Order.t :=
  Order.mk id XPAR EUR ts 0 p q q DAY side LIMIT inst 2001.

Definition gtd_order (id : Z) (side : OrderType) (inst : Z) (p : Q) (q ts exp : Z) : Order.t :=
  Order.mk id XPAR EUR ts exp p q q GTD side LIMIT inst 2001.

Definition registry1 : InstrumentManager := (addInstrument InstrumentManager_new (instr 1)).2.
Definition registry12 : InstrumentManager := (addInstrument registry1 (instr 2)).2.

Definition engine0 (im : InstrumentManager) : MatchingEngine :=
  MatchingEngine_new 0 OrderBook_new im.

(** Submissions one after the other; [None] as soon as one does not return. *)
Fixpoint submit_all (now : Z) (e : MatchingEngine) (l : list Order.t)
  : option (list bool * MatchingEngine) :=
  match l with
  | [] => Some ([], e)
  | o :: rest =>
      match addAndValidateOrder now e o with
      | Some (r, e1) =>
          match submit_all now e1 rest with
          | Some (rs, e2) => Some (r :: rs, e2)
          | None => None
          end
      | None => None
      end
  end.

Definition bid1001 : Order.t := day_order 1001 BID 1 155 300 0.
Definition ask2001 : Order.t := day_order 2001 ASK 1 148 200 100.

(** ** Vocabulary of the properties *)

(** [t] is the trade of the selected pair [p] = (bid, ask). *)
Definition trade_of_pair (t : Trade.t) (p : Order.t * Order.t) : Prop :=
  compatible p.1 p.2 = true
  /\ Trade.buyOrderId t = Order.idorder p.1
  /\ Trade.sellOrderId t = Order.idorder p.2
  /\ Trade.quantity t = Z.min (Order.quantity p.1) (Order.quantity p.2)
  /\ Trade.price t = Order.price p.2.

(** The statistics after the trades [ts] were notified one by one. *)
Definition notify_all (attached : bool) (ts : list Trade.t) (s : Stats) : Stats :=
  foldl (λ acc t, notifyMatch attached t acc) s ts.

(** An order with its remaining quantity forgotten: what identifies it
    across partial fills. *)
Definition erase_quantity (o : Order.t) : Order.t := Order.with_quantity o 0.

Definition sumZ (l : list Z) : Z := foldr Z.add 0 l.

(** The order resting in the book under identifier [id], if any. *)
Definition resting (ob : OrderBook) (id : Z) : option Order.t :=
  head (filter (λ o, Order.idorder o = id) (book_orders ob)).

(** Remaining quantity of order [id]: zero once it has left the book. *)
Definition remaining_qty (ob : OrderBook) (id : Z) : Z :=
  from_option Order.quantity 0 (resting ob id).

(** [original_qty(o) - remaining_qty(o)] in the book [ob]. *)
Definition filled_qty (ob : OrderBook) (o : Order.t) : Z :=
  Order.originalqty o - remaining_qty ob (Order.idorder o).

Definition involves (id : Z) (t : Trade.t) : Prop :=
  Trade.buyOrderId t = id \/ Trade.sellOrderId t = id.

(** Sum of [quantity] over the trades of [ts] that involve order [id]. *)
Definition traded_qty (id : Z) (ts : list Trade.t) : Z :=
  sumZ (Trade.quantity <$> filter (involves id) ts).

(** Total quantity resting under identifier [id] in a list of orders. *)
Definition qty_of (id : Z) (l : list Order.t) : Z :=
  sumZ (Order.quantity <$> filter (λ o, Order.idorder o = id) l).

(** Quantity a selected pair takes from identifier [id]. *)
Definition pair_qty (id : Z) (p : Order.t * Order.t) : Z :=
  let tq := Z.min (Order.quantity p.1) (Order.quantity p.2) in
  (if decide (Order.idorder p.1 = id) then tq else 0)
  + (if decide (Order.idorder p.2 = id) then tq else 0).

(** No compatible (bid, ask) pair of the two lists is crossed. *)
Definition crossing_free (bids asks : list Order.t) : Prop :=
  forall b a, b ∈ bids -> a ∈ asks -> compatible b a = true ->
              (Order.price b < Order.price a)%Q.

(** One side is empty, or no two compatible resting orders cross,
    whatever their price levels. *)
Definition no_crossed_book (ob : OrderBook) : Prop :=
  bidOrders ob = [] \/ askOrders ob = []
  \/ crossing_free (side_orders (bidOrders ob)) (side_orders (askOrders ob)).

(** The queue of [begin()], empty for an empty map. *)
Definition top_queue (m : Side) : list Order.t :=
  match m with
  | [] => []
  | (_, q) :: _ => q
  end.

(** The same, for the two best price levels only. *)
Definition no_crossed_top (ob : OrderBook) : Prop :=
  bidOrders ob = [] \/ askOrders ob = []
  \/ crossing_free (top_queue (bidOrders ob)) (top_queue (askOrders ob)).

(** Every order rests in the level of its own price. *)
Definition side_priced (m : Side) : Prop :=
  Forall (λ l, Forall (λ o, (Order.price o == l.1)%Q) l.2) m.

(** No empty level and no executed order: the state cleanup leaves. *)
Definition side_clean (m : Side) : Prop :=
  Forall (λ l, l.2 <> [] /\ Forall (λ o, Order.quantity o <> 0) l.2) m.

(** Orders of two instruments with a crossed pair below the best bid. *)
Definition bid_i1_100 : Order.t := day_order 1 BID 1 100 100 0.
Definition bid_i2_99 : Order.t := day_order 2 BID 2 99 100 1.
Definition ask_i2_98 : Order.t := day_order 3 ASK 2 98 100 2.

Definition crossed_below_top : OrderBook :=
  addOrder (addOrder (addOrder (setMatchingEngine OrderBook_new) bid_i1_100) bid_i2_99)
           ask_i2_98.

(** The price levels follow one another in the order of the comparator:
    the invariant of [std::map]. *)
Definition keys_sorted (cmp : Q -> Q -> bool) (m : Side) : Prop :=
  StronglySorted (λ k1 k2, cmp k1 k2 = true) (m.*1).

(** Every queue is in the order of the priority timestamps. *)
Definition side_fifo (m : Side) : Prop :=
  Forall (λ l, StronglySorted Z.le (Order.priority <$> l.2)) m.

Definition side_wf (cmp : Q -> Q -> bool) (m : Side) : Prop :=
  keys_sorted cmp m /\ side_priced m /\ side_fifo m.

Definition book_wf (ob : OrderBook) : Prop :=
  side_wf bid_cmp (bidOrders ob) /\ side_wf ask_cmp (askOrders ob).

(** [o1] has priority over [o2]: a better price, or the same price and a
    timestamp that is not later. *)
Definition ptp_before (cmp : Q -> Q -> bool) (o1 o2 : Order.t) : Prop :=
  cmp (Order.price o1) (Order.price o2) = true
  \/ ((Order.price o1 == Order.price o2)%Q /\ Order.priority o1 <= Order.priority o2).

(** Traversing the map in its order and each queue front to back yields
    the orders in price-time priority. *)
Definition price_time_priority (cmp : Q -> Q -> bool) (m : Side) : Prop :=
  StronglySorted (ptp_before cmp) (side_orders m).

(** The timestamp of [o] is not earlier than that of any resting order. *)
Definition arrives_last (ob : OrderBook) (o : Order.t) : Prop :=
  forall o', o' ∈ book_orders ob -> Order.priority o' <= Order.priority o.

(** Scenario 3: a GTD ask expiring one hour after [t = 0], beside a DAY bid. *)
Definition ask3001 : Order.t := gtd_order 3001 ASK 1 152 100 0 (hours 1).
Definition bid_day : Order.t := day_order 1004 BID 1 150 100 0.

Definition gtd_engine : MatchingEngine :=
  mkMatchingEngine (addOrder (addOrder (setMatchingEngine OrderBook_new) ask3001) bid_day)
                   registry1 true (zero_stats 0).

(** A worker whose last daily reset is twenty-five hours old. *)
Definition day_old_clock : WorkerClock := mkWorkerClock 0 0 0.

(** No DAY order rests in the book. *)
Definition no_day_order (ob : OrderBook) : Prop :=
  forall o, o ∈ book_orders ob -> Order.timeinforce o <> DAY.

(** The first instrument of [l] with the triple [k]. *)
Definition first_with_key (k : InstrumentKey) (l : list Instrument.t) : option Instrument.t :=
  head (filter (λ i, instrument_key i = k) l).

(** The set of triples is that of the stored instruments, and no two
    stored instruments share a triple. *)
Definition registry_inv (im : InstrumentManager) : Prop :=
  (forall k, k ∈ instrumentSet im <-> k ∈ instrument_key <$> instruments im)
  /\ NoDup (instrument_key <$> instruments im).

(** The triple an order is routed by. *)
Definition order_key (o : Order.t) : InstrumentKey :=
  (Order.idinstrument o, Order.marketIdentificationCode o, Order.tradingCurrency o).

(** Some registered instrument has the triple of [o] and passes both
    validators. *)
Definition valid_for_some_instrument (im : InstrumentManager) (o : Order.t) : Prop :=
  exists i, i ∈ instruments im
            /\ instrument_key i = order_key o
            /\ validatePrice o i = true
            /\ validateQuantity o i = Some true.

(** Scenario 1 before the sweep, and scenario 2: the remainder of bid
    1001 ahead of the two later bids at the same price. *)
Definition scenario1_book : OrderBook :=
  addOrder (addOrder (setMatchingEngine OrderBook_new) bid1001) ask2001.

Definition bid1002 : Order.t := day_order 1002 BID 1 155 200 200.
Definition bid1003 : Order.t := day_order 1003 BID 1 155 200 300.

Definition scenario2_book : OrderBook :=
  addOrder (addOrder (setMatchingEngine OrderBook_new) (Order.with_quantity bid1001 100))
           bid1002.

(** Scenario 4: a price off the tick grid and a quantity off the lot. *)
Definition bid_off_tick : Order.t := day_order 1005 BID 1 (150005 # 1000) 100 0.
Definition bid_off_lot : Order.t := day_order 1006 BID 1 150 150 0.

(** An engine that traded in scenario 1 and was stopped afterwards. *)
Definition traded_engine : MatchingEngine :=
  mkMatchingEngine scenario1_book registry1 false
                   (mkStats 1 29600 0 1 29600 3 1).

(** ** Further code of the cited files *)

(** [addInstrument] of Utils.cpp, on the bare set of triples. *)
Definition Utils_addInstrument (s : gset InstrumentKey) (i : Instrument.t)
  : bool * gset InstrumentKey :=
  if isUniqueInstrument s i then (true, {[ instrument_key i ]} ∪ s) else (false, s).

(** The characters of [s] before its first NUL: what [strncpy] reads from
    [name.c_str()]. *)
Fixpoint c_str (s : string) : string :=
  match s with
  | EmptyString => EmptyString
  | String c rest =>
      if Ascii.eqb c Ascii.zero then EmptyString else String c (c_str rest)
  end.

Fixpoint string_take (n : nat) (s : string) : string :=
  match n, s with
  | S n', String c rest => String c (string_take n' rest)
  | _, _ => EmptyString
  end.

(** [strncpy(this->name, name.c_str(), sizeof(this->name) - 1)] followed by
    the terminating NUL, read back as a C string. *)
Definition strncpy_name (name : string) : string := string_take 49 (c_str name).

(** The constructor of [Instrument] (Instrument.cpp). *)
Definition Instrument_new (idinstrument : Z) (marketIdentificationCode tradingCurrency : string)
    (name : string) (issue : Z) (state : State) (refprice : Q) (idtradinggroup : Z)
    (lotsize pricedecimal currentorderid currenttradeid idapf : Z) : Instrument.t :=
  Instrument.mk idinstrument marketIdentificationCode tradingCurrency (strncpy_name name)
                issue state refprice idtradinggroup lotsize pricedecimal
                currentorderid currenttradeid idapf.

(** The constructor of [Order] with an expiration date (Order.cpp). *)
Definition Order_with_expiration (idorder : Z) (marketIdentificationCode tradingCurrency : string)
    (priority : Z) (price : Q) (quantity : Z) (timeinforce : TimeInForce)
    (ordertype : OrderType) (limitType : LimitType) (idinstrument originalqty idfirm : Z)
    (expirationDate : Z) : Order.t :=
  Order.mk idorder marketIdentificationCode tradingCurrency priority expirationDate
           price quantity originalqty timeinforce ordertype limitType idinstrument idfirm.


(** The default constructor; [now1] and [now2] are its two readings of
    the clock. *)
Definition Order_default (now1 now2 : Z) : Order.t :=
  Order.mk 0 "" "" now1 now2 0 0 0 DAY BID LIMIT 0 0.

Definition is_gtd (o : Order.t) : bool :=
  match Order.timeinforce o with
  | GTD => true
  | DAY => false
  end.

(** [duration_cast<hours>(expirationDate - now).count()]: the quotient
    rounds towards zero. *)
Definition timeToExpiry (now : Z) (o : Order.t) : Z :=
  Z.quot (Order.expirationDate o - now) (hours 1).

(** A line of [displayGTDOrders]: the side it is printed under, the order
    identifier, price, quantity and hours to expiry. *)
Definition GTDLine : Type := OrderType * Z * Q * Z * Z.

Definition gtd_lines (now : Z) (side : OrderType) (m : Side) : list GTDLine :=
  (λ o, (side, Order.idorder o, Order.price o, Order.quantity o, timeToExpiry now o))
    <$> filter (λ o, is_gtd o) (side_orders m).

(** [displayGTDOrders]: the lines printed, bids first, and the flag
    [hasGTDOrders]. *)
Definition displayGTDOrders (now : Z) (e : MatchingEngine) : list GTDLine * bool :=
  let lines := gtd_lines now BID (bidOrders (orderBook e))
               ++ gtd_lines now ASK (askOrders (orderBook e)) in
  (lines, match lines with [] => false | _ :: _ => true end).

(** ** Vocabulary of the further properties *)

(** Every resting order of the side has a positive remaining quantity. *)
Definition side_positive (m : Side) : Prop :=
  Forall (λ o, 0 < Order.quantity o) (side_orders m).

(** No resting order of the side has more left than it started with. *)
Definition side_bounded (m : Side) : Prop :=
  Forall (λ o, Order.quantity o <= Order.originalqty o) (side_orders m).


(** What every accepted submission keeps: orders at their price, no
    empty level, positive quantities, and an uncrossed top of book. *)
Definition book_settled (ob : OrderBook) : Prop :=
  side_priced (bidOrders ob) /\ side_priced (askOrders ob)
  /\ side_clean (bidOrders ob) /\ side_clean (askOrders ob)
  /\ side_positive (bidOrders ob) /\ side_positive (askOrders ob)
  /\ no_crossed_top ob.

(** The state the sweep leaves a side in when it stops at the head of
    the loop. *)
Definition top_uncrossed (bids asks : Side) : Prop :=
  bids = [] \/ asks = []
  \/ exists bp bq brest ap aq arest,
       bids = (bp, bq) :: brest /\ asks = (ap, aq) :: arest /\ (bp < ap)%Q.

(** A book with an expired level over a crossed pair. *)
Definition hollow_book : OrderBook :=
  mkOrderBook [(100%Q, []); (99%Q, [day_order 2 BID 1 99 100 1])]
              [(98%Q, [day_order 3 ASK 1 98 100 2])] [] 1 true.


(** [o] is placed between [pre] and [post]: behind the orders at a price
    that is better or the same, ahead of those at a worse price. *)
Definition placed_by_price (cmp : Q -> Q -> bool) (o : Order.t)
    (before after : list Order.t) : Prop :=
  exists pre post,
    before = pre ++ post /\ after = pre ++ o :: post
    /\ Forall (λ x, cmp (Order.price x) (Order.price o) = true
                    \/ (Order.price x == Order.price o)%Q) pre
    /\ Forall (λ y, cmp (Order.price o) (Order.price y) = true) post.


(** Scenario 1 on a book that no engine is attached to, and in a running
    engine. *)
Definition detached_book : OrderBook :=
  addOrder (addOrder OrderBook_new bid1001) ask2001.

Definition scenario1_engine : MatchingEngine :=
  mkMatchingEngine scenario1_book registry1 true (zero_stats 0).

(** A name of sixty characters. *)
Definition long_name : string :=
  "ABCDEFGHIJKLMNOPQRSTUVWXYZABCDEFGHIJKLMNOPQRSTUVWXYZABCDEFGH".

(** * Properties *)

(** ** Comparisons on prices *)

Lemma Qltb_lt (a b : Q) : Qltb a b = true <-> (a < b)%Q.
Proof.
  unfold Qltb. rewrite Qlt_alt. destruct (a ?= b)%Q; split; congruence.
Qed.

Lemma Qltb_ge (a b : Q) : Qltb a b = false <-> (b <= a)%Q.
Proof.
  rewrite <- not_true_iff_false, Qltb_lt. split.
  - apply Qnot_lt_le.
  - apply Qle_not_lt.
Qed.

(** ** Cleanup and traversal *)

Lemma side_orders_cons (k : Q) (q : list Order.t) (m : Side) :
  side_orders ((k, q) :: m) = q ++ side_orders m.
Proof. reflexivity. Qed.

Lemma side_orders_cleanup (m : Side) :
  side_orders (cleanup_side m) = filter (λ o, negb (executed o)) (side_orders m).
Proof.
  induction m as [|[k q] m IH]; [reflexivity|].
  rewrite side_orders_cons, filter_app, <- IH. simpl.
  destruct (filter _ q) eqn:E; [reflexivity|].
  rewrite side_orders_cons. reflexivity.
Qed.

Lemma cleanup_length (m : Side) :
  (length (side_orders (cleanup_side m)) <= length (side_orders m))%nat.
Proof. rewrite side_orders_cleanup. apply length_filter. Qed.

Lemma cleanup_length_lt (m : Side) (o : Order.t) :
  o ∈ side_orders m -> Order.quantity o = 0 ->
  (length (side_orders (cleanup_side m)) < length (side_orders m))%nat.
Proof.
  intros Hin Hq. rewrite side_orders_cleanup.
  apply (length_filter_lt _ _ o); [exact Hin|].
  unfold executed. rewrite Hq. simpl. tauto.
Qed.

(** ** The two scans *)

Lemma execute_trade_zero now att b a ms b1 a1 ms1 :
  execute_trade now att b a ms = (b1, a1, ms1) ->
  Order.quantity b1 = 0 \/ Order.quantity a1 = 0.
Proof.
  unfold execute_trade. intros [= <- <- <-]. simpl. lia.
Qed.

Lemma scan_asks_cases now att b asks ms :
  ((forall a, a ∈ asks -> compatible b a = false)
   /\ scan_asks now att b asks ms = (b, asks, ms, false))
  \/ (exists apre a apost b1 a1 ms1,
        asks = apre ++ a :: apost
        /\ (forall y, y ∈ apre -> compatible b y = false)
        /\ compatible b a = true
        /\ execute_trade now att b a ms = (b1, a1, ms1)
        /\ scan_asks now att b asks ms = (b1, apre ++ a1 :: apost, ms1, true)).
Proof.
  induction asks as [|a rest IH].
  - left. split; [|reflexivity]. intros a Ha. inversion Ha.
  - cbn [scan_asks]. destruct (compatible b a) eqn:Hc.
    + right. destruct (execute_trade now att b a ms) as [[b1 a1] ms1] eqn:He.
      exists [], a, rest, b1, a1, ms1.
      destruct (execute_trade_zero _ _ _ _ _ _ _ _ He) as [Hz|Hz];
        rewrite Hz; simpl; rewrite ?orb_true_r;
        repeat split; auto; intros y Hy; inversion Hy.
    + destruct IH as [[Hall Heq]|(apre & a' & apost & b1 & a1 & ms1 & -> & Hpre & Hca & He & Heq)].
      * left. rewrite Heq. split; [|reflexivity].
        intros y Hy. apply elem_of_cons in Hy as [->|Hy]; auto.
      * right. exists (a :: apre), a', apost, b1, a1, ms1. rewrite Heq.
        repeat split; auto.
        intros y Hy. apply elem_of_cons in Hy as [->|Hy]; auto.
Qed.

Lemma scan_bids_cases now att bids asks ms :
  ((forall b a, b ∈ bids -> a ∈ asks -> compatible b a = false)
   /\ scan_bids now att bids asks ms = (bids, asks, ms, false))
  \/ (exists bpre b bpost apre a apost b1 a1 ms1,
        bids = bpre ++ b :: bpost
        /\ asks = apre ++ a :: apost
        /\ (forall x y, x ∈ bpre -> y ∈ asks -> compatible x y = false)
        /\ (forall y, y ∈ apre -> compatible b y = false)
        /\ compatible b a = true
        /\ execute_trade now att b a ms = (b1, a1, ms1)
        /\ scan_bids now att bids asks ms
           = (bpre ++ b1 :: bpost, apre ++ a1 :: apost, ms1, true)).
Proof.
  induction bids as [|b rest IH].
  - left. split; [|reflexivity]. intros b a Hb. inversion Hb.
  - cbn [scan_bids].
    destruct (scan_asks_cases now att b asks ms)
      as [[Hall Heq]|(apre & a & apost & b1 & a1 & ms1 & Hasks & Hpre & Hca & He & Heq)];
      rewrite Heq.
    + destruct IH as [[Hall' Heq']|(bpre & b' & bpost & apre & a & apost & b1 & a1 & ms1
                                    & -> & Hasks & Hbpre & Hapre & Hca & He & Heq')];
        rewrite Heq'.
      * left. split; [|reflexivity].
        intros x y Hx Hy. apply elem_of_cons in Hx as [->|Hx]; auto.
      * right. exists (b :: bpre), b', bpost, apre, a, apost, b1, a1, ms1.
        repeat split; auto.
        intros x y Hx Hy. apply elem_of_cons in Hx as [->|Hx]; auto.
    + right. exists [], b, rest, apre, a, apost, b1, a1, ms1.
      repeat split; auto. intros x y Hx. inversion Hx.
Qed.

(** ** The loop and the sweep relation *)

Lemma matchOrders_loop_sweep now att fuel bids asks ms bids' asks' ms' :
  matchOrders_loop fuel now att bids asks ms = Some (bids', asks', ms') ->
  exists sel, sweep now att bids asks ms sel bids' asks' ms'.
Proof.
  revert bids asks ms.
  induction fuel as [|n IH]; intros bids asks ms H;
    destruct bids as [|[bp bq] brest]; destruct asks as [|[ap aq] arest];
    cbn [matchOrders_loop] in H;
    try (injection H as <- <- <-; exists []; constructor; fail).
  all: destruct (Qltb bp ap) eqn:Hlt;
    [injection H as <- <- <-; exists []; apply sweep_uncrossed; by apply Qltb_lt|].
  all: apply Qltb_ge in Hlt.
  all: destruct (scan_bids_cases now att bq aq ms)
    as [[Hall Heq]|(bpre & b & bpost & apre & a & apost & b1 & a1 & ms1
                    & -> & -> & Hbpre & Hapre & Hc & He & Heq)];
    rewrite Heq in H;
    [injection H as <- <- <-; exists []; by apply sweep_no_match|].
  - discriminate.
  - destruct (IH _ _ _ H) as [sel Hsel].
    exists ((b, a) :: sel). eapply sweep_match; eauto.
Qed.

Lemma side_orders_length_top (k : Q) (pre post : list Order.t) (x y : Order.t) (m : Side) :
  length (side_orders ((k, pre ++ x :: post) :: m))
  = length (side_orders ((k, pre ++ y :: post) :: m)).
Proof. rewrite !side_orders_cons, !length_app. simpl. reflexivity. Qed.

Lemma top_elem_of (k : Q) (pre post : list Order.t) (x : Order.t) (m : Side) :
  x ∈ side_orders ((k, pre ++ x :: post) :: m).
Proof. rewrite side_orders_cons. set_solver. Qed.

(** An iteration that trades leaves strictly fewer resting orders. *)
Lemma pass_length_lt now att b a ms b1 a1 ms1 bp bpre bpost brest ap apre apost arest :
  execute_trade now att b a ms = (b1, a1, ms1) ->
  (length (side_orders (cleanup_side ((bp, bpre ++ b1 :: bpost) :: brest)))
   + length (side_orders (cleanup_side ((ap, apre ++ a1 :: apost) :: arest)))
   < length (side_orders ((bp, bpre ++ b :: bpost) :: brest))
     + length (side_orders ((ap, apre ++ a :: apost) :: arest)))%nat.
Proof.
  intros He.
  rewrite (side_orders_length_top bp bpre bpost b b1),
          (side_orders_length_top ap apre apost a a1).
  pose proof (cleanup_length ((bp, bpre ++ b1 :: bpost) :: brest)).
  pose proof (cleanup_length ((ap, apre ++ a1 :: apost) :: arest)).
  destruct (execute_trade_zero _ _ _ _ _ _ _ _ He) as [Hz|Hz].
  - pose proof (cleanup_length_lt _ _ (top_elem_of bp bpre bpost b1 brest) Hz). lia.
  - pose proof (cleanup_length_lt _ _ (top_elem_of ap apre apost a1 arest) Hz). lia.
Qed.

Lemma matchOrders_loop_total now att fuel bids asks ms :
  (length (side_orders bids) + length (side_orders asks) <= fuel)%nat ->
  is_Some (matchOrders_loop fuel now att bids asks ms).
Proof.
  revert bids asks ms.
  induction fuel as [|n IH]; intros bids asks ms Hlen;
    destruct bids as [|[bp bq] brest]; destruct asks as [|[ap aq] arest];
    cbn [matchOrders_loop]; try (eexists; reflexivity).
  all: destruct (Qltb bp ap); [eexists; reflexivity|].
  all: destruct (scan_bids_cases now att bq aq ms)
    as [[Hall Heq]|(bpre & b & bpost & apre & a & apost & b1 & a1 & ms1
                    & -> & -> & Hbpre & Hapre & Hc & He & Heq)];
    rewrite Heq; [eexists; reflexivity|].
  - pose proof (pass_length_lt _ _ _ _ _ _ _ _ bp bpre bpost brest ap apre apost arest He).
    lia.
  - apply IH.
    pose proof (pass_length_lt _ _ _ _ _ _ _ _ bp bpre bpost brest ap apre apost arest He).
    lia.
Qed.

Lemma matchOrders_total now ob s : is_Some (matchOrders now ob s).
Proof.
  unfold matchOrders.
  destruct (matchOrders_loop_total now (matchingEngine ob) (length (book_orders ob))
              (bidOrders ob) (askOrders ob) (mkMatchState (trades ob) (nextTradeId ob) s 0))
    as [[[bids asks] ms] ->].
  - unfold book_orders. rewrite length_app. lia.
  - eexists; reflexivity.
Qed.

Lemma matchOrders_sweep now ob s n ob' s' :
  matchOrders now ob s = Some (n, ob', s') ->
  exists sel ms',
    sweep now (matchingEngine ob) (bidOrders ob) (askOrders ob)
          (mkMatchState (trades ob) (nextTradeId ob) s 0) sel
          (bidOrders ob') (askOrders ob') ms'
    /\ trades ob' = ms_trades ms' /\ nextTradeId ob' = ms_nextTradeId ms'
    /\ matchingEngine ob' = matchingEngine ob
    /\ s' = ms_stats ms' /\ n = ms_tradesExecuted ms'.
Proof.
  unfold matchOrders.
  destruct (matchOrders_loop _ _ _ _ _ _) as [[[bids asks] ms]|] eqn:E; [|discriminate].
  intros [= <- <- <-]. apply matchOrders_loop_sweep in E as [sel Hsel].
  exists sel, ms. simpl. auto 10.
Qed.

(** ** What a sweep writes *)

Lemma notify_all_cons att t ts s :
  notify_all att (t :: ts) s = notify_all att ts (notifyMatch att t s).
Proof. reflexivity. Qed.

Lemma sweep_effects now att bids asks ms sel bids' asks' ms' :
  sweep now att bids asks ms sel bids' asks' ms' ->
  ms_trades ms' = ms_trades ms ++ trades_from now (ms_nextTradeId ms) sel
  /\ ms_nextTradeId ms' = ms_nextTradeId ms + Z.of_nat (length sel)
  /\ ms_tradesExecuted ms' = ms_tradesExecuted ms + Z.of_nat (length sel)
  /\ ms_stats ms' = notify_all att (trades_from now (ms_nextTradeId ms) sel) (ms_stats ms).
Proof.
  induction 1 as [asks ms|bids ms|bp bq brest ap aq arest ms Hlt
                 |bp bq brest ap aq arest ms Hle Hno
                 |bp bpre b bpost brest ap apre a apost arest ms b1 a1 ms1 sel bids' asks' ms'
                    Hle Hbpre Hapre Hc He Hsw IH];
    try (simpl; rewrite app_nil_r; repeat split; lia).
  destruct IH as (Ht & Hid & Hn & Hs).
  unfold execute_trade in He. injection He as <- <- <-. simpl in *.
  rewrite Ht, Hid, Hn, Hs, <- app_assoc. simpl. repeat split; try lia.
Qed.

Lemma trades_from_pairs now id sel :
  Forall (λ p, compatible p.1 p.2 = true) sel ->
  Forall2 trade_of_pair (trades_from now id sel) sel.
Proof.
  intros H. revert id. induction H as [|[b a] sel Hc _ IH]; intros id; simpl.
  - constructor.
  - constructor; [|apply IH]. unfold trade_of_pair. simpl. auto.
Qed.

Lemma sweep_selected_compatible now att bids asks ms sel bids' asks' ms' :
  sweep now att bids asks ms sel bids' asks' ms' ->
  Forall (λ p, compatible p.1 p.2 = true) sel.
Proof. induction 1; constructor; auto. Qed.

Lemma length_trades_from now id sel : length (trades_from now id sel) = length sel.
Proof. revert id. induction sel as [|[b a] sel IH]; intros id; simpl; auto. Qed.

(** A sweep returns, and its result is that of a chain of selections. *)
Lemma matchOrders_run now ob s :
  exists n ob' s' sel ms',
    matchOrders now ob s = Some (n, ob', s')
    /\ sweep now (matchingEngine ob) (bidOrders ob) (askOrders ob)
             (mkMatchState (trades ob) (nextTradeId ob) s 0) sel
             (bidOrders ob') (askOrders ob') ms'
    /\ trades ob' = trades ob ++ trades_from now (nextTradeId ob) sel
    /\ nextTradeId ob' = nextTradeId ob + Z.of_nat (length sel)
    /\ matchingEngine ob' = matchingEngine ob
    /\ n = Z.of_nat (length sel)
    /\ s' = notify_all (matchingEngine ob) (trades_from now (nextTradeId ob) sel) s.
Proof.
  destruct (matchOrders_total now ob s) as [[[n ob'] s'] Hm].
  destruct (matchOrders_sweep _ _ _ _ _ _ Hm) as (sel & ms' & Hsw & Ht & Hid & Hatt & Hs & Hn).
  destruct (sweep_effects _ _ _ _ _ _ _ _ _ Hsw) as (Ht' & Hid' & Hn' & Hs').
  simpl in *. exists n, ob', s', sel, ms'.
  repeat split; auto; try congruence; lia.
Qed.

(** ** Trade quantity and price *)

(** C3. Every trade of a sweep is the trade of a compatible (bid, ask)
    pair selected by the scan, with quantity the minimum of the two
    remaining quantities and price the price of the ask; in scenario 1
    the sweep produces the single trade (1001, 2001, 200, 148), leaves the
    bid with 100 and removes the ask. *)
Theorem matchOrders_trade_min_quantity_ask_price :
  (forall now ob s,
      exists n ob' s' sel ms',
        matchOrders now ob s = Some (n, ob', s')
        /\ sweep now (matchingEngine ob) (bidOrders ob) (askOrders ob)
                 (mkMatchState (trades ob) (nextTradeId ob) s 0) sel
                 (bidOrders ob') (askOrders ob') ms'
        /\ n = Z.of_nat (length sel)
        /\ trades ob' = trades ob ++ trades_from now (nextTradeId ob) sel
        /\ Forall2 trade_of_pair (trades_from now (nextTradeId ob) sel) sel)
  /\ (exists e',
        submit_all 0 (engine0 registry1) [bid1001; ask2001] = Some ([true; true], e')
        /\ trades (orderBook e') = [Trade.mk 1 1001 2001 XPAR EUR 148 200 0]
        /\ bidOrders (orderBook e') = [(155%Q, [Order.with_quantity bid1001 100])]
        /\ askOrders (orderBook e') = []).
Proof.
  split.
  - intros now ob s.
    destruct (matchOrders_run now ob s)
      as (n & ob' & s' & sel & ms' & Hm & Hsw & Ht & _ & _ & Hn & _).
    exists n, ob', s', sel, ms'. repeat split; auto.
    apply trades_from_pairs. eapply sweep_selected_compatible; eauto.
  - eexists. split; [vm_compute; reflexivity|]. repeat split.
Qed.

(** ** Orders keep their place *)

Lemma erase_with_quantity (o : Order.t) (q : Z) :
  erase_quantity (Order.with_quantity o q) = erase_quantity o.
Proof. reflexivity. Qed.

Lemma cleanup_sublist (m : Side) : side_orders (cleanup_side m) `sublist_of` side_orders m.
Proof. rewrite side_orders_cleanup. apply sublist_filter. Qed.

Lemma erase_top (k : Q) (pre post : list Order.t) (b : Order.t) (q : Z) (m : Side) :
  erase_quantity <$> side_orders ((k, pre ++ Order.with_quantity b q :: post) :: m)
  = erase_quantity <$> side_orders ((k, pre ++ b :: post) :: m).
Proof. rewrite !side_orders_cons, !fmap_app, !fmap_cons. reflexivity. Qed.

Lemma pass_sublist (k : Q) (pre post : list Order.t) (b : Order.t) (q : Z) (m : Side) :
  erase_quantity <$> side_orders (cleanup_side ((k, pre ++ Order.with_quantity b q :: post) :: m))
  `sublist_of` erase_quantity <$> side_orders ((k, pre ++ b :: post) :: m).
Proof. rewrite <- (erase_top k pre post b q m). apply fmap_sublist, cleanup_sublist. Qed.

Lemma execute_trade_orders now att b a ms b1 a1 ms1 :
  execute_trade now att b a ms = (b1, a1, ms1) ->
  b1 = Order.with_quantity b (Order.quantity b - Z.min (Order.quantity b) (Order.quantity a))
  /\ a1 = Order.with_quantity a (Order.quantity a - Z.min (Order.quantity b) (Order.quantity a)).
Proof. unfold execute_trade. intros [= <- <- <-]. auto. Qed.

Lemma sweep_sublist now att bids asks ms sel bids' asks' ms' :
  sweep now att bids asks ms sel bids' asks' ms' ->
  erase_quantity <$> side_orders bids' `sublist_of` erase_quantity <$> side_orders bids
  /\ erase_quantity <$> side_orders asks' `sublist_of` erase_quantity <$> side_orders asks.
Proof.
  induction 1 as [asks ms|bids ms|bp bq brest ap aq arest ms Hlt
                 |bp bq brest ap aq arest ms Hle Hno
                 |bp bpre b bpost brest ap apre a apost arest ms b1 a1 ms1 sel bids' asks' ms'
                    Hle Hbpre Hapre Hc He Hsw IH];
    try (split; reflexivity).
  - split; apply fmap_sublist, cleanup_sublist.
  - destruct (execute_trade_orders _ _ _ _ _ _ _ _ He) as [-> ->].
    destruct IH as [IHb IHa]. split.
    + etransitivity; [exact IHb|apply pass_sublist].
    + etransitivity; [exact IHa|apply pass_sublist].
Qed.

Lemma erase_idorder (l : list Order.t) :
  Order.idorder <$> (erase_quantity <$> l) = Order.idorder <$> l.
Proof. rewrite <- list_fmap_compose. reflexivity. Qed.

Lemma sublist_ids (l' l : list Order.t) :
  erase_quantity <$> l' `sublist_of` erase_quantity <$> l ->
  Order.idorder <$> l' `sublist_of` Order.idorder <$> l.
Proof.
  intros H. rewrite <- (erase_idorder l'), <- (erase_idorder l).
  by apply fmap_sublist.
Qed.

Lemma NoDup_ids_sublist (b' a' b a : list Order.t) :
  erase_quantity <$> b' `sublist_of` erase_quantity <$> b ->
  erase_quantity <$> a' `sublist_of` erase_quantity <$> a ->
  NoDup (Order.idorder <$> (b ++ a)) -> NoDup (Order.idorder <$> (b' ++ a')).
Proof.
  intros Hb Ha Hnd. eapply sublist_NoDup; [exact Hnd|].
  rewrite !fmap_app. apply sublist_app; by apply sublist_ids.
Qed.

(** ** Conservation of quantity *)

Lemma sumZ_app (l1 l2 : list Z) : sumZ (l1 ++ l2) = sumZ l1 + sumZ l2.
Proof. induction l1 as [|x l1 IH]; simpl; [reflexivity|]. rewrite IH. lia. Qed.

Lemma sumZ_cons (x : Z) (l : list Z) : sumZ (x :: l) = x + sumZ l.
Proof. reflexivity. Qed.

Lemma qty_of_nil id : qty_of id [] = 0.
Proof. reflexivity. Qed.

Lemma qty_of_cons id o l :
  qty_of id (o :: l)
  = (if decide (Order.idorder o = id) then Order.quantity o else 0) + qty_of id l.
Proof.
  unfold qty_of. rewrite filter_cons.
  destruct (decide (Order.idorder o = id)); reflexivity.
Qed.

Lemma qty_of_app id l1 l2 : qty_of id (l1 ++ l2) = qty_of id l1 + qty_of id l2.
Proof. unfold qty_of. rewrite filter_app, fmap_app. apply sumZ_app. Qed.

Lemma qty_of_live id l : qty_of id (filter (λ o, negb (executed o)) l) = qty_of id l.
Proof.
  induction l as [|o l IH]; [reflexivity|].
  rewrite filter_cons, qty_of_cons.
  destruct (decide (negb (executed o))) as [Hd|Hd].
  - rewrite qty_of_cons, IH. reflexivity.
  - rewrite IH. unfold executed in Hd.
    destruct (Z.eqb_spec (Order.quantity o) 0) as [->|]; [|simpl in Hd; tauto].
    destruct (decide _); reflexivity.
Qed.

Lemma qty_of_cleanup id m : qty_of id (side_orders (cleanup_side m)) = qty_of id (side_orders m).
Proof. rewrite side_orders_cleanup. apply qty_of_live. Qed.

Lemma qty_of_top id k pre post b q m :
  qty_of id (side_orders ((k, pre ++ Order.with_quantity b q :: post) :: m))
  = qty_of id (side_orders ((k, pre ++ b :: post) :: m))
    - (if decide (Order.idorder b = id) then Order.quantity b - q else 0).
Proof.
  rewrite !side_orders_cons, !qty_of_app, !qty_of_cons. simpl.
  destruct (decide (Order.idorder b = id)); lia.
Qed.

Lemma pair_qty_pair id b a :
  pair_qty id (b, a)
  = (if decide (Order.idorder b = id) then Z.min (Order.quantity b) (Order.quantity a) else 0)
    + (if decide (Order.idorder a = id) then Z.min (Order.quantity b) (Order.quantity a) else 0).
Proof. reflexivity. Qed.

Lemma sweep_conservation now att bids asks ms sel bids' asks' ms' id :
  sweep now att bids asks ms sel bids' asks' ms' ->
  qty_of id (side_orders bids ++ side_orders asks)
  = qty_of id (side_orders bids' ++ side_orders asks') + sumZ (pair_qty id <$> sel).
Proof.
  induction 1 as [asks ms|bids ms|bp bq brest ap aq arest ms Hlt
                 |bp bq brest ap aq arest ms Hle Hno
                 |bp bpre b bpost brest ap apre a apost arest ms b1 a1 ms1 sel bids' asks' ms'
                    Hle Hbpre Hapre Hc He Hsw IH];
    try (simpl; lia).
  - rewrite !qty_of_app, !qty_of_cleanup. simpl. lia.
  - destruct (execute_trade_orders _ _ _ _ _ _ _ _ He) as [-> ->].
    rewrite fmap_cons, sumZ_cons.
    rewrite !qty_of_app, !qty_of_cleanup, !qty_of_top in IH.
    rewrite !qty_of_app in *. rewrite pair_qty_pair.
    destruct (decide (Order.idorder b = id)), (decide (Order.idorder a = id)); lia.
Qed.

Lemma traded_qty_cons id t ts :
  traded_qty id (t :: ts)
  = (if decide (involves id t) then Trade.quantity t else 0) + traded_qty id ts.
Proof.
  unfold traded_qty. rewrite filter_cons. destruct (decide (involves id t)); reflexivity.
Qed.

Lemma traded_qty_pairs now k id sel :
  Forall (λ p, Order.idorder p.1 <> Order.idorder p.2) sel ->
  traded_qty id (trades_from now k sel) = sumZ (pair_qty id <$> sel).
Proof.
  intros H. revert k. induction H as [|[b a] sel Hne _ IH]; intros k; [reflexivity|].
  cbn [trades_from]. rewrite traded_qty_cons, IH, fmap_cons, sumZ_cons, pair_qty_pair.
  f_equal. unfold involves, make_trade. simpl in *.
  destruct (decide (Order.idorder b = id)), (decide (Order.idorder a = id));
    destruct (decide _) as [[?|?]|Hn]; try lia; try congruence.
  all: exfalso; apply Hn; auto.
Qed.

Lemma sweep_distinct_ids now att bids asks ms sel bids' asks' ms' :
  sweep now att bids asks ms sel bids' asks' ms' ->
  NoDup (Order.idorder <$> (side_orders bids ++ side_orders asks)) ->
  Forall (λ p, Order.idorder p.1 <> Order.idorder p.2) sel.
Proof.
  induction 1 as [asks ms|bids ms|bp bq brest ap aq arest ms Hlt
                 |bp bq brest ap aq arest ms Hle Hno
                 |bp bpre b bpost brest ap apre a apost arest ms b1 a1 ms1 sel bids' asks' ms'
                    Hle Hbpre Hapre Hc He Hsw IH];
    intros Hnd; try constructor.
  - simpl. rewrite fmap_app in Hnd. apply NoDup_app in Hnd as (_ & Hd & _).
    intros Heq. apply (Hd (Order.idorder b)).
    + apply list_elem_of_fmap. exists b. split; [reflexivity|apply top_elem_of].
    + apply list_elem_of_fmap. exists a. split; [exact Heq|apply top_elem_of].
  - apply IH. destruct (execute_trade_orders _ _ _ _ _ _ _ _ He) as [-> ->].
    eapply NoDup_ids_sublist; [apply pass_sublist|apply pass_sublist|exact Hnd].
Qed.

Lemma filter_id_NoDup id (l : list Order.t) :
  NoDup (Order.idorder <$> l) ->
  sumZ (Order.quantity <$> filter (λ o, Order.idorder o = id) l)
  = from_option Order.quantity 0 (head (filter (λ o, Order.idorder o = id) l)).
Proof.
  induction l as [|o l IH]; intros Hnd; [reflexivity|].
  rewrite fmap_cons in Hnd. apply NoDup_cons in Hnd as [Hni Hnd].
  rewrite filter_cons. destruct (decide (Order.idorder o = id)) as [Heq|Hne].
  - simpl. assert (filter (λ o0, Order.idorder o0 = id) l = []) as ->.
    { destruct (filter _ l) as [|x xs] eqn:E; [reflexivity|]. exfalso. apply Hni.
      assert (x ∈ filter (λ o0, Order.idorder o0 = id) l) as Hx by (rewrite E; left).
      apply list_elem_of_filter in Hx as [Hxid Hx].
      apply list_elem_of_fmap. exists x. split; [congruence|exact Hx]. }
    simpl. lia.
  - by apply IH.
Qed.

Lemma remaining_qty_sum ob id :
  NoDup (Order.idorder <$> book_orders ob) ->
  remaining_qty ob id = qty_of id (book_orders ob).
Proof. intros H. unfold remaining_qty, resting, qty_of. by rewrite filter_id_NoDup. Qed.

(** C4. Quantity conservation: over one sweep of a book whose order
    identifiers are pairwise distinct, the filled quantity
    [originalqty - remaining] of every resting order grows by the sum of
    the quantities of the trades of this sweep that involve the order. *)
Theorem matchOrders_conservation (now : Z) (ob : OrderBook) (s : Stats) (o : Order.t) :
  NoDup (Order.idorder <$> book_orders ob) ->
  o ∈ book_orders ob ->
  exists n ob' s' new,
    matchOrders now ob s = Some (n, ob', s')
    /\ trades ob' = trades ob ++ new
    /\ Z.of_nat (length new) = n
    /\ filled_qty ob' o - filled_qty ob o = traded_qty (Order.idorder o) new.
Proof.
  intros Hnd _.
  destruct (matchOrders_run now ob s)
    as (n & ob' & s' & sel & ms' & Hm & Hsw & Ht & _ & _ & Hn & _).
  exists n, ob', s', (trades_from now (nextTradeId ob) sel).
  split; [exact Hm|]. split; [exact Ht|].
  split; [rewrite length_trades_from; lia|].
  pose proof (sweep_conservation _ _ _ _ _ _ _ _ _ (Order.idorder o) Hsw) as Hc.
  pose proof (sweep_distinct_ids _ _ _ _ _ _ _ _ _ Hsw Hnd) as Hd.
  destruct (sweep_sublist _ _ _ _ _ _ _ _ _ Hsw) as [Hsb Hsa].
  pose proof (NoDup_ids_sublist _ _ _ _ Hsb Hsa Hnd) as Hnd'.
  unfold filled_qty.
  rewrite (remaining_qty_sum ob _ Hnd), (remaining_qty_sum ob' _ Hnd').
  rewrite (traded_qty_pairs _ _ _ _ Hd). unfold book_orders. lia.
Qed.

(** ** Statistics of a submission *)

Lemma addOrder_trades ob o : trades (addOrder ob o) = trades ob.
Proof. unfold addOrder. destruct (Order.ordertype o); reflexivity. Qed.

Lemma addOrder_nextTradeId ob o : nextTradeId (addOrder ob o) = nextTradeId ob.
Proof. unfold addOrder. destruct (Order.ordertype o); reflexivity. Qed.

Lemma addOrder_matchingEngine ob o : matchingEngine (addOrder ob o) = matchingEngine ob.
Proof. unfold addOrder. destruct (Order.ordertype o); reflexivity. Qed.

Lemma accept_order_total now e o : is_Some (accept_order now e o).
Proof.
  unfold accept_order.
  destruct (matchOrders_total now (addOrder (orderBook e) o) (stats e)) as [[[n ob'] s'] ->].
  eexists; reflexivity.
Qed.

Lemma wrap_int_add_l (a b : Z) : wrap_int (wrap_int a + b) = wrap_int (a + b).
Proof.
  unfold wrap_int.
  replace ((a + 2147483648) mod 4294967296 - 2147483648 + b + 2147483648)
    with ((a + 2147483648) mod 4294967296 + b) by lia.
  rewrite Z.add_mod_idemp_l by lia. f_equal. f_equal. lia.
Qed.

Lemma updateStats_daily t s :
  dailyTradeCount (updateStats t s) = fetch_add (dailyTradeCount s) 1.
Proof. reflexivity. Qed.

Lemma updateStats_total t s :
  totalTradeCount (updateStats t s) = fetch_add (totalTradeCount s) 1.
Proof. reflexivity. Qed.

Lemma notify_all_detached ts s : notify_all false ts s = s.
Proof. induction ts as [|t ts IH]; [reflexivity|]. rewrite notify_all_cons. exact IH. Qed.

Lemma notify_all_counts t ts s :
  dailyTradeCount (notify_all true (t :: ts) s)
  = wrap_int (dailyTradeCount s + Z.of_nat (length (t :: ts)))
  /\ totalTradeCount (notify_all true (t :: ts) s)
     = wrap_int (totalTradeCount s + Z.of_nat (length (t :: ts))).
Proof.
  revert t s. induction ts as [|t' ts IH]; intros t s.
  - simpl. auto.
  - rewrite notify_all_cons. destruct (IH t' (notifyMatch true t s)) as [-> ->].
    cbn [notifyMatch]. rewrite updateStats_daily, updateStats_total. unfold fetch_add.
    rewrite !wrap_int_add_l. split; f_equal; simpl length; lia.
Qed.

(** C5 (the code departs from it). An accepted submission notifies every
    trade of its sweep once and then updates the statistics a second time
    with the last of them, so that a sweep of [n >= 1] trades raises the
    two trade counters of an engine by [n + 1]; in scenario 1 the single
    trade of 200 at 148 raises both trade counters by 2 and both volumes by
    59200. *)
Theorem accept_order_updates_last_trade_twice :
  (forall now e o,
      exists e' new,
        accept_order now e o = Some e'
        /\ trades (orderBook e') = trades (orderBook e) ++ new
        /\ stats e' =
           match last new with
           | Some t => updateStats t (notify_all (matchingEngine (orderBook e)) new (stats e))
           | None => stats e
           end
        /\ dailyTradeCount (stats e') =
           match new with
           | [] => dailyTradeCount (stats e)
           | _ :: _ =>
               if matchingEngine (orderBook e)
               then wrap_int (dailyTradeCount (stats e) + Z.of_nat (length new) + 1)
               else wrap_int (dailyTradeCount (stats e) + 1)
           end
        /\ totalTradeCount (stats e') =
           match new with
           | [] => totalTradeCount (stats e)
           | _ :: _ =>
               if matchingEngine (orderBook e)
               then wrap_int (totalTradeCount (stats e) + Z.of_nat (length new) + 1)
               else wrap_int (totalTradeCount (stats e) + 1)
           end)
  /\ (exists e1 e2,
        addAndValidateOrder 0 (engine0 registry1) bid1001 = Some (true, e1)
        /\ addAndValidateOrder 0 e1 ask2001 = Some (true, e2)
        /\ trades (orderBook e1) = []
        /\ trades (orderBook e2) = [Trade.mk 1 1001 2001 XPAR EUR 148 200 0]
        /\ dailyTradeCount (stats e1) = 0 /\ dailyTradeCount (stats e2) = 2
        /\ totalTradeCount (stats e1) = 0 /\ totalTradeCount (stats e2) = 2
        /\ dailyVolume (stats e1) = 0%Q /\ dailyVolume (stats e2) = 59200%Q
        /\ totalVolume (stats e1) = 0%Q /\ totalVolume (stats e2) = 59200%Q).
Proof.
  split.
  - intros now e o. unfold accept_order.
    destruct (matchOrders_run now (addOrder (orderBook e) o) (stats e))
      as (n & ob' & s' & sel & ms' & Hm & _ & Ht & _ & _ & Hn & Hs).
    rewrite Hm. eexists _, (trades_from now (nextTradeId (addOrder (orderBook e) o)) sel).
    split; [reflexivity|]. simpl.
    rewrite addOrder_trades, addOrder_matchingEngine in *. split; [exact Ht|].
    unfold getLastTrade. rewrite Ht, Hn, Hs.
    destruct sel as [|[b a] sel]; [auto|].
    replace (0 <? Z.of_nat (length ((b, a) :: sel))) with true
      by (symmetry; apply Z.ltb_lt; simpl; lia).
    set (new := trades_from now (nextTradeId (addOrder (orderBook e) o)) ((b, a) :: sel)).
    assert (exists t, last new = Some t) as [t Hlast].
    { subst new. cbn [trades_from]. rewrite last_cons.
      destruct (last _); eexists; reflexivity. }
    rewrite last_app, Hlast.
    split; [reflexivity|]. subst new. cbn [trades_from] in *.
    destruct (matchingEngine (orderBook e)).
    + destruct (notify_all_counts
                  (make_trade now (nextTradeId (addOrder (orderBook e) o)) b a)
                  (trades_from now (nextTradeId (addOrder (orderBook e) o) + 1) sel)
                  (stats e)) as [Hd Htot].
      rewrite updateStats_daily, updateStats_total. unfold fetch_add.
      rewrite Hd, Htot, !wrap_int_add_l. auto.
    + rewrite notify_all_detached. auto.
  - eexists _, _. split; [vm_compute; reflexivity|].
    split; [vm_compute; reflexivity|]. repeat split.
Qed.

(** ** The book after a sweep *)

Lemma cleanup_side_clean (m : Side) : side_clean (cleanup_side m).
Proof.
  induction m as [|[k q] m IH]; [constructor|]. simpl.
  destruct (filter _ q) as [|x xs] eqn:E; [exact IH|].
  constructor; [|exact IH]. simpl. split; [discriminate|].
  rewrite <- E. apply Forall_forall. intros o Ho.
  apply list_elem_of_filter in Ho as [Hq _]. unfold executed in Hq.
  destruct (Z.eqb_spec (Order.quantity o) 0); [simpl in Hq; tauto|assumption].
Qed.

Lemma filter_live_id (q : list Order.t) :
  Forall (λ o, Order.quantity o <> 0) q -> filter (λ o, negb (executed o)) q = q.
Proof.
  induction 1 as [|o q Ho _ IH]; [reflexivity|].
  rewrite filter_cons_True, IH; [reflexivity|].
  unfold executed. destruct (Z.eqb_spec (Order.quantity o) 0); [contradiction|exact I].
Qed.

Lemma cleanup_side_id (m : Side) : side_clean m -> cleanup_side m = m.
Proof.
  induction 1 as [|[k q] m [Hne Hq] _ IH]; [reflexivity|]. simpl in *.
  rewrite (filter_live_id q Hq), IH. destruct q; [contradiction|reflexivity].
Qed.

Lemma Forall_filter_keep {A} (P : A -> Prop) (Q : A -> Prop) `{!forall x, Decision (Q x)}
    (l : list A) :
  Forall P l -> Forall P (filter Q l).
Proof.
  rewrite !Forall_forall. intros Hall x Hx. apply list_elem_of_filter in Hx as [_ Hx]. auto.
Qed.

Lemma cleanup_side_priced (m : Side) : side_priced m -> side_priced (cleanup_side m).
Proof.
  induction 1 as [|[k q] m Hq _ IH]; [constructor|]. simpl in *.
  destruct (filter _ q) as [|x xs] eqn:E; [exact IH|].
  constructor; [|exact IH]. simpl. rewrite <- E. by apply Forall_filter_keep.
Qed.

Lemma top_priced (k : Q) (pre post : list Order.t) (b : Order.t) (q : Z) (m : Side) :
  side_priced ((k, pre ++ b :: post) :: m) ->
  side_priced ((k, pre ++ Order.with_quantity b q :: post) :: m).
Proof.
  intros H. apply Forall_cons in H as [Hq Hm]. constructor; [|exact Hm]. simpl in *.
  apply Forall_app in Hq as [Hpre Hpost]. apply Forall_cons in Hpost as [Hb Hpost].
  apply Forall_app. split; [exact Hpre|]. constructor; [exact Hb|exact Hpost].
Qed.

Lemma sweep_no_crossed_top now att bids asks ms sel bids' asks' ms' :
  sweep now att bids asks ms sel bids' asks' ms' ->
  side_priced bids -> side_priced asks -> side_clean bids -> side_clean asks ->
  bids' = [] \/ asks' = [] \/ crossing_free (top_queue bids') (top_queue asks').
Proof.
  induction 1 as [asks ms|bids ms|bp bq brest ap aq arest ms Hlt
                 |bp bq brest ap aq arest ms Hle Hno
                 |bp bpre b bpost brest ap apre a apost arest ms b1 a1 ms1 sel bids' asks' ms'
                    Hle Hbpre Hapre Hc He Hsw IH];
    intros Hpb Hpa Hcb Hca; auto.
  - right; right. intros b a Hb Ha _. simpl in *.
    apply Forall_cons in Hpb as [Hpb _]. apply Forall_cons in Hpa as [Hpa _].
    rewrite Forall_forall in Hpb, Hpa.
    rewrite (Hpb b Hb), (Hpa a Ha). exact Hlt.
  - right; right. rewrite (cleanup_side_id _ Hcb), (cleanup_side_id _ Hca).
    intros b a Hb Ha Hcomp. simpl in *. rewrite (Hno b a Hb Ha) in Hcomp. discriminate.
  - destruct (execute_trade_orders _ _ _ _ _ _ _ _ He) as [-> ->].
    apply IH; auto using cleanup_side_clean, cleanup_side_priced, top_priced.
Qed.

(** C1, as amended. After a sweep of a book in which every order rests at
    its own price, no level is empty and no order is executed, one side is
    empty or no compatible pair of the two best price levels is crossed. *)
Theorem matchOrders_no_crossed_top (now : Z) (ob : OrderBook) (s : Stats) :
  side_priced (bidOrders ob) -> side_priced (askOrders ob) ->
  side_clean (bidOrders ob) -> side_clean (askOrders ob) ->
  exists n ob' s', matchOrders now ob s = Some (n, ob', s') /\ no_crossed_top ob'.
Proof.
  intros Hpb Hpa Hcb Hca.
  destruct (matchOrders_run now ob s) as (n & ob' & s' & sel & ms' & Hm & Hsw & _).
  exists n, ob', s'. split; [exact Hm|].
  exact (sweep_no_crossed_top _ _ _ _ _ _ _ _ _ Hsw Hpb Hpa Hcb Hca).
Qed.

(** C1 as stated fails: a sweep of [crossed_below_top] returns with both
    sides non-empty and the compatible pair (bid 99, ask 98) crossed. *)
Lemma matchOrders_crossed_below_top :
  ~ (forall now ob s n ob' s',
        matchOrders now ob s = Some (n, ob', s') -> no_crossed_book ob').
Proof.
  intros H.
  assert (matchOrders 0 crossed_below_top (zero_stats 0)
          = Some (0, crossed_below_top, zero_stats 0)) as Hm by (vm_compute; reflexivity).
  destruct (H _ _ _ _ _ _ Hm) as [Hb|[Ha|Hx]]; [discriminate Hb|discriminate Ha|].
  assert ((Order.price bid_i2_99 < Order.price ask_i2_98)%Q) as Hlt.
  { apply Hx; [| |reflexivity]; vm_compute; set_solver. }
  vm_compute in Hlt. discriminate Hlt.
Qed.

(** ** Price-time priority *)

Lemma StronglySorted_sublist {A} (R : relation A) (l1 l2 : list A) :
  l1 `sublist_of` l2 -> StronglySorted R l2 -> StronglySorted R l1.
Proof.
  induction 1 as [|x l1 l2 Hsub IH|x l1 l2 Hsub IH]; intros Hs.
  - constructor.
  - apply StronglySorted_cons in Hs as [Hx Hs]. apply StronglySorted_cons.
    split; [|by apply IH].
    rewrite Forall_forall in *. intros y Hy. apply Hx.
    by apply (sublist_subseteq _ _ Hsub).
  - apply StronglySorted_cons in Hs as [_ Hs]. by apply IH.
Qed.

Lemma elem_of_side_orders (o : Order.t) (m : Side) :
  o ∈ side_orders m <-> exists l, l ∈ m /\ o ∈ l.2.
Proof.
  induction m as [|[k q] m IH].
  - split; [intros H; inversion H|intros (l & H & _); inversion H].
  - rewrite side_orders_cons, elem_of_app, IH. split.
    + intros [Ho|(l & Hl & Ho)]; [exists (k, q)|exists l]; split; auto; by constructor.
    + intros (l & Hl & Ho). apply elem_of_cons in Hl as [->|Hl]; [by left|right; eauto].
Qed.

Lemma cleanup_keys_sublist (m : Side) : (cleanup_side m).*1 `sublist_of` m.*1.
Proof.
  induction m as [|[k q] m IH]; [reflexivity|]. simpl.
  destruct (filter _ q); [by apply sublist_cons|by apply sublist_skip].
Qed.

Lemma cleanup_side_fifo (m : Side) : side_fifo m -> side_fifo (cleanup_side m).
Proof.
  induction 1 as [|[k q] m Hq _ IH]; [constructor|]. simpl in *.
  destruct (filter _ q) as [|x xs] eqn:E; [exact IH|].
  constructor; [|exact IH]. cbn [snd]. rewrite <- E.
  eapply StronglySorted_sublist; [|exact Hq]. apply fmap_sublist, sublist_filter.
Qed.

Lemma top_fifo (k : Q) (pre post : list Order.t) (b : Order.t) (q : Z) (m : Side) :
  side_fifo ((k, pre ++ b :: post) :: m) ->
  side_fifo ((k, pre ++ Order.with_quantity b q :: post) :: m).
Proof.
  intros H. apply Forall_cons in H as [Hq Hm]. constructor; [|exact Hm]. simpl in *.
  rewrite fmap_app, fmap_cons in *. exact Hq.
Qed.

Lemma expire_side_keys now (m : Side) : (expire_side now m).*1 = m.*1.
Proof. unfold expire_side. rewrite <- list_fmap_compose. reflexivity. Qed.

Lemma expire_side_priced now (m : Side) : side_priced m -> side_priced (expire_side now m).
Proof.
  induction 1 as [|[k q] m Hq _ IH]; [constructor|].
  constructor; [|exact IH]. simpl in *. by apply Forall_filter_keep.
Qed.

Lemma expire_side_fifo now (m : Side) : side_fifo m -> side_fifo (expire_side now m).
Proof.
  induction 1 as [|[k q] m Hq _ IH]; [constructor|].
  constructor; [|exact IH]. simpl in *.
  eapply StronglySorted_sublist; [|exact Hq]. apply fmap_sublist, sublist_filter.
Qed.

Section comparator.
Variable cmp : Q -> Q -> bool.
Hypothesis cmp_proper :
  forall a a' b b', (a == a')%Q -> (b == b')%Q -> cmp a b = cmp a' b'.
Hypothesis cmp_trans :
  forall a b c, cmp a b = true -> cmp b c = true -> cmp a c = true.
Hypothesis cmp_equiv :
  forall a b, cmp a b = false -> cmp b a = false -> (a == b)%Q.

Lemma level_push_back_keys_Forall (P : Q -> Prop) p o m :
  P p -> Forall P (m.*1) -> Forall P ((level_push_back cmp p o m).*1).
Proof using Type.
  intros Hp. induction m as [|[k q] m IH]; intros Hm; simpl.
  - by constructor.
  - apply Forall_cons in Hm as [Hk Hm].
    destruct (cmp k p); [constructor; auto|].
    destruct (cmp p k); simpl; repeat constructor; auto.
Qed.

Lemma level_push_back_keys p o m :
  keys_sorted cmp m -> keys_sorted cmp (level_push_back cmp p o m).
Proof using cmp_trans.
  unfold keys_sorted. induction m as [|[k q] m IH]; intros Hs; simpl.
  - repeat constructor.
  - simpl in Hs. apply StronglySorted_cons in Hs as [Hk Hs].
    destruct (cmp k p) eqn:Hkp.
    + simpl. apply StronglySorted_cons. split; [|by apply IH].
      by apply level_push_back_keys_Forall.
    + destruct (cmp p k) eqn:Hpk; simpl.
      * apply StronglySorted_cons. split.
        -- constructor; [exact Hpk|].
           eapply Forall_impl; [exact Hk|]. intros k' Hk'. simpl in *. eauto.
        -- apply StronglySorted_cons. auto.
      * apply StronglySorted_cons. auto.
Qed.

Lemma level_push_back_priced o m :
  side_priced m -> side_priced (level_push_back cmp (Order.price o) o m).
Proof using cmp_equiv.
  induction 1 as [|[k q] m Hq Hm IH]; simpl.
  - constructor; [|constructor]. simpl. constructor; [reflexivity|constructor].
  - destruct (cmp k (Order.price o)) eqn:Hkp; [constructor; auto|].
    destruct (cmp (Order.price o) k) eqn:Hpk.
    + constructor; [|constructor; auto]. simpl. constructor; [reflexivity|constructor].
    + constructor; [|exact Hm]. simpl in *. apply Forall_app. split; [exact Hq|].
      constructor; [|constructor]. symmetry. by apply cmp_equiv.
Qed.

Lemma level_push_back_fifo p o m :
  side_fifo m ->
  (forall o', o' ∈ side_orders m -> Order.priority o' <= Order.priority o) ->
  side_fifo (level_push_back cmp p o m).
Proof using Type.
  induction 1 as [|[k q] m Hq Hm IH]; intros Hlast; simpl.
  - repeat constructor.
  - rewrite side_orders_cons in Hlast.
    destruct (cmp k p).
    + constructor; [exact Hq|]. apply IH. intros o' Ho'.
      apply Hlast, elem_of_app. by right.
    + destruct (cmp p k).
      * constructor; [|constructor; auto]. simpl. repeat constructor.
      * constructor; [|exact Hm]. simpl in *. rewrite fmap_app.
        apply StronglySorted_app. split_and!; [|exact Hq|repeat constructor].
        intros x1 x2 Hx1 Hx2. apply list_elem_of_singleton in Hx2 as ->.
        apply list_elem_of_fmap in Hx1 as (o' & -> & Ho').
        apply Hlast, elem_of_app. by left.
Qed.

Lemma level_push_back_wf o m :
  side_wf cmp m ->
  (forall o', o' ∈ side_orders m -> Order.priority o' <= Order.priority o) ->
  side_wf cmp (level_push_back cmp (Order.price o) o m).
Proof using cmp_trans cmp_equiv.
  intros (Hk & Hp & Hf) Hlast.
  split_and!; auto using level_push_back_keys, level_push_back_priced, level_push_back_fifo.
Qed.

Lemma queue_ptp k q :
  Forall (λ o, (Order.price o == k)%Q) q ->
  StronglySorted Z.le (Order.priority <$> q) ->
  StronglySorted (ptp_before cmp) q.
Proof using Type.
  induction 1 as [|o q Ho Hq IH]; intros Hs; [constructor|].
  rewrite fmap_cons in Hs. apply StronglySorted_cons in Hs as [Hle Hs].
  apply StronglySorted_cons. split; [|auto].
  rewrite Forall_forall in Hq. rewrite Forall_forall in Hle. apply Forall_forall. intros o' Ho'. right. split.
  - rewrite Ho, (Hq o' Ho'). reflexivity.
  - apply Hle. apply list_elem_of_fmap. eauto.
Qed.

Lemma side_wf_ptp m : side_wf cmp m -> price_time_priority cmp m.
Proof using cmp_proper.
  unfold price_time_priority, side_wf, keys_sorted.
  induction m as [|[k q] m IH]; intros (Hk & Hp & Hf); [constructor|].
  simpl in Hk. apply StronglySorted_cons in Hk as [Hk Hks].
  apply Forall_cons in Hp as [Hq Hp]. apply Forall_cons in Hf as [Hfq Hf].
  rewrite side_orders_cons. apply StronglySorted_app. split_and!.
  - intros x1 x2 Hx1 Hx2. left.
    apply elem_of_side_orders in Hx2 as ([k' q'] & Hl & Hx2).
    rewrite Forall_forall in Hk. rewrite Forall_forall in Hq.
    rewrite Forall_forall in Hp. simpl in *.
    pose proof (Hp _ Hl) as Hq'. rewrite Forall_forall in Hq'. simpl in *.
    rewrite (cmp_proper _ k _ k' (Hq _ Hx1) (Hq' _ Hx2)).
    apply Hk. apply list_elem_of_fmap. exists (k', q'). auto.
  - by apply (queue_ptp k).
  - by apply IH.
Qed.

Lemma cleanup_side_wf m : side_wf cmp m -> side_wf cmp (cleanup_side m).
Proof using Type.
  intros (Hk & Hp & Hf). split_and!; auto using cleanup_side_priced, cleanup_side_fifo.
  eapply StronglySorted_sublist; [apply cleanup_keys_sublist|exact Hk].
Qed.

Lemma top_wf k pre post b q m :
  side_wf cmp ((k, pre ++ b :: post) :: m) ->
  side_wf cmp ((k, pre ++ Order.with_quantity b q :: post) :: m).
Proof using Type.
  intros (Hk & Hp & Hf). split_and!; auto using top_priced, top_fifo.
Qed.

Lemma expire_side_wf now m : side_wf cmp m -> side_wf cmp (expire_side now m).
Proof using Type.
  intros (Hk & Hp & Hf). split_and!; auto using expire_side_priced, expire_side_fifo.
  unfold keys_sorted. by rewrite expire_side_keys.
Qed.
End comparator.

(** The two comparators of the book meet the assumptions of the section. *)

Lemma Qltb_proper a a' b b' : (a == a')%Q -> (b == b')%Q -> Qltb a b = Qltb a' b'.
Proof. intros Ha Hb. unfold Qltb. by rewrite Ha, Hb. Qed.

Lemma Qltb_trans a b c : Qltb a b = true -> Qltb b c = true -> Qltb a c = true.
Proof. rewrite !Qltb_lt. apply Qlt_trans. Qed.

Lemma Qltb_equiv a b : Qltb a b = false -> Qltb b a = false -> (a == b)%Q.
Proof. rewrite !Qltb_ge. intros H1 H2. by apply Qle_antisym. Qed.

Lemma ask_cmp_proper a a' b b' : (a == a')%Q -> (b == b')%Q -> ask_cmp a b = ask_cmp a' b'.
Proof. apply Qltb_proper. Qed.

Lemma ask_cmp_trans a b c : ask_cmp a b = true -> ask_cmp b c = true -> ask_cmp a c = true.
Proof. apply Qltb_trans. Qed.

Lemma ask_cmp_equiv a b : ask_cmp a b = false -> ask_cmp b a = false -> (a == b)%Q.
Proof. apply Qltb_equiv. Qed.

Lemma bid_cmp_proper a a' b b' : (a == a')%Q -> (b == b')%Q -> bid_cmp a b = bid_cmp a' b'.
Proof. intros Ha Hb. by apply Qltb_proper. Qed.

Lemma bid_cmp_trans a b c : bid_cmp a b = true -> bid_cmp b c = true -> bid_cmp a c = true.
Proof. unfold bid_cmp. intros H1 H2. by apply (Qltb_trans c b a). Qed.

Lemma bid_cmp_equiv a b : bid_cmp a b = false -> bid_cmp b a = false -> (a == b)%Q.
Proof. unfold bid_cmp. intros H1 H2. by apply Qltb_equiv. Qed.

Lemma OrderBook_new_wf : book_wf OrderBook_new.
Proof. repeat split; constructor. Qed.

Lemma addOrder_wf ob o : book_wf ob -> arrives_last ob o -> book_wf (addOrder ob o).
Proof.
  intros [Hb Ha] Hlast. unfold addOrder, book_wf.
  destruct (Order.ordertype o); simpl; split; auto.
  - apply (level_push_back_wf bid_cmp bid_cmp_trans bid_cmp_equiv); [exact Hb|].
    intros o' Ho'. apply Hlast. unfold book_orders. apply elem_of_app. by left.
  - apply (level_push_back_wf ask_cmp ask_cmp_trans ask_cmp_equiv); [exact Ha|].
    intros o' Ho'. apply Hlast. unfold book_orders. apply elem_of_app. by right.
Qed.

Lemma cleanupExecutedOrders_wf ob : book_wf ob -> book_wf (cleanupExecutedOrders ob).
Proof. intros [Hb Ha]. split; by apply cleanup_side_wf. Qed.

Lemma checkGTDOrders_wf now e :
  book_wf (orderBook e) -> book_wf (orderBook (checkGTDOrders now e)).
Proof. intros [Hb Ha]. split; by apply expire_side_wf. Qed.

Lemma sweep_wf now att bids asks ms sel bids' asks' ms' :
  sweep now att bids asks ms sel bids' asks' ms' ->
  side_wf bid_cmp bids -> side_wf ask_cmp asks ->
  side_wf bid_cmp bids' /\ side_wf ask_cmp asks'.
Proof.
  induction 1 as [asks ms|bids ms|bp bq brest ap aq arest ms Hlt
                 |bp bq brest ap aq arest ms Hle Hno
                 |bp bpre b bpost brest ap apre a apost arest ms b1 a1 ms1 sel bids' asks' ms'
                    Hle Hbpre Hapre Hc He Hsw IH];
    intros Hb Ha; auto.
  - split; by apply cleanup_side_wf.
  - destruct (execute_trade_orders _ _ _ _ _ _ _ _ He) as [-> ->].
    apply IH; by apply cleanup_side_wf, top_wf.
Qed.

Lemma book_wf_ptp ob :
  book_wf ob ->
  price_time_priority bid_cmp (bidOrders ob) /\ price_time_priority ask_cmp (askOrders ob).
Proof.
  intros [Hb Ha]. split.
  - apply side_wf_ptp; auto using bid_cmp_proper.
  - apply side_wf_ptp; auto using ask_cmp_proper.
Qed.

(** The scan changes remaining quantities only: every order is found at
    the index it had. *)
Lemma scan_bids_positions now att bids asks ms bids' asks' ms' found :
  scan_bids now att bids asks ms = (bids', asks', ms', found) ->
  erase_quantity <$> bids' = erase_quantity <$> bids
  /\ erase_quantity <$> asks' = erase_quantity <$> asks.
Proof.
  destruct (scan_bids_cases now att bids asks ms)
    as [[Hall Heq]|(bpre & b & bpost & apre & a & apost & b1 & a1 & ms1
                    & -> & -> & Hbpre & Hapre & Hc & He & Heq)];
    rewrite Heq; intros [= <- <- <- <-]; [auto|].
  destruct (execute_trade_orders _ _ _ _ _ _ _ _ He) as [-> ->].
  rewrite !fmap_app, !fmap_cons. auto.
Qed.

(** C6. Price-time priority is an invariant of the book operations.  The
    empty book is well formed; in a well-formed book the traversal of each
    side is in price-time priority; inserting an order whose timestamp is
    not earlier than those resting, a sweep, the expiry sweep and the
    cleanup keep the book well formed; the sweep and the cleanup keep
    the survivors in their relative order, the scan keeps every order at
    its index, and cleanup removes exactly the executed orders. *)
Theorem price_time_priority_invariant :
  book_wf OrderBook_new
  /\ forall ob, book_wf ob ->
       (price_time_priority bid_cmp (bidOrders ob)
        /\ price_time_priority ask_cmp (askOrders ob))
       /\ (forall o, arrives_last ob o -> book_wf (addOrder ob o))
       /\ (forall now s,
             exists n ob' s',
               matchOrders now ob s = Some (n, ob', s')
               /\ book_wf ob'
               /\ erase_quantity <$> side_orders (bidOrders ob')
                  `sublist_of` erase_quantity <$> side_orders (bidOrders ob)
               /\ erase_quantity <$> side_orders (askOrders ob')
                  `sublist_of` erase_quantity <$> side_orders (askOrders ob))
       /\ (forall now e, orderBook e = ob -> book_wf (orderBook (checkGTDOrders now e)))
       /\ (book_wf (cleanupExecutedOrders ob)
           /\ side_orders (bidOrders (cleanupExecutedOrders ob))
              = filter (λ o, negb (executed o)) (side_orders (bidOrders ob))
           /\ side_orders (askOrders (cleanupExecutedOrders ob))
              = filter (λ o, negb (executed o)) (side_orders (askOrders ob)))
       /\ (forall now bq aq ms bq' aq' ms' found,
             scan_bids now (matchingEngine ob) bq aq ms = (bq', aq', ms', found) ->
             erase_quantity <$> bq' = erase_quantity <$> bq
             /\ erase_quantity <$> aq' = erase_quantity <$> aq).
Proof.
  split; [exact OrderBook_new_wf|].
  intros ob Hwf. split_and!.
  - apply (book_wf_ptp ob Hwf).
  - apply (book_wf_ptp ob Hwf).
  - intros o Hlast. by apply addOrder_wf.
  - intros now s.
    destruct (matchOrders_run now ob s) as (n & ob' & s' & sel & ms' & Hm & Hsw & _).
    exists n, ob', s'. split; [exact Hm|].
    destruct Hwf as [Hb Ha].
    split; [exact (sweep_wf _ _ _ _ _ _ _ _ _ Hsw Hb Ha)|].
    exact (sweep_sublist _ _ _ _ _ _ _ _ _ Hsw).
  - intros now e <-. by apply checkGTDOrders_wf.
  - by apply cleanupExecutedOrders_wf.
  - apply side_orders_cleanup.
  - apply side_orders_cleanup.
  - intros now bq aq ms bq' aq' ms' found. apply scan_bids_positions.
Qed.

(** ** Expiry *)

Lemma expired_spec now o :
  expired now o = true <-> Order.timeinforce o = GTD /\ Order.expirationDate o <= now.
Proof.
  unfold expired. destruct (Order.timeinforce o).
  - rewrite Z.leb_le. tauto.
  - split; [discriminate|intros [? _]; discriminate].
Qed.

Lemma side_orders_expire now (m : Side) :
  side_orders (expire_side now m) = filter (λ o, negb (expired now o)) (side_orders m).
Proof.
  induction m as [|[k q] m IH]; [reflexivity|].
  rewrite side_orders_cons, filter_app, <- IH. reflexivity.
Qed.

Lemma expire_side_levels now (m : Side) :
  Forall2 (λ l' l, l'.1 = l.1 /\ l'.2 = filter (λ o, negb (expired now o)) l.2)
          (expire_side now m) m.
Proof. induction m as [|[k q] m IH]; constructor; auto. Qed.

Lemma book_orders_expire now e :
  book_orders (orderBook (checkGTDOrders now e))
  = filter (λ o, negb (expired now o)) (book_orders (orderBook e)).
Proof. unfold book_orders. simpl. by rewrite filter_app, !side_orders_expire. Qed.

(** C8. After the expiry sweep no GTD order with [expirationDate <= now]
    rests on either side; every DAY order and every GTD order expiring
    later is still there; each price level keeps its key and its queue is
    the former queue without the expired orders, in the same order; the
    trade log is untouched. *)
Theorem checkGTDOrders_removes_expired_only (now : Z) (e : MatchingEngine) :
  (forall o, o ∈ book_orders (orderBook (checkGTDOrders now e)) ->
             ~ (Order.timeinforce o = GTD /\ Order.expirationDate o <= now))
  /\ (forall o, o ∈ book_orders (orderBook e) ->
                Order.timeinforce o = DAY \/ now < Order.expirationDate o ->
                o ∈ book_orders (orderBook (checkGTDOrders now e)))
  /\ Forall2 (λ l' l, l'.1 = l.1 /\ l'.2 = filter (λ o, negb (expired now o)) l.2)
             (bidOrders (orderBook (checkGTDOrders now e))) (bidOrders (orderBook e))
  /\ Forall2 (λ l' l, l'.1 = l.1 /\ l'.2 = filter (λ o, negb (expired now o)) l.2)
             (askOrders (orderBook (checkGTDOrders now e))) (askOrders (orderBook e))
  /\ side_orders (bidOrders (orderBook (checkGTDOrders now e)))
     `sublist_of` side_orders (bidOrders (orderBook e))
  /\ side_orders (askOrders (orderBook (checkGTDOrders now e)))
     `sublist_of` side_orders (askOrders (orderBook e))
  /\ trades (orderBook (checkGTDOrders now e)) = trades (orderBook e).
Proof.
  split_and!.
  - intros o Ho Hexp. rewrite book_orders_expire in Ho.
    apply list_elem_of_filter in Ho as [Hk _].
    apply expired_spec in Hexp. rewrite Hexp in Hk. exact Hk.
  - intros o Ho Hkeep. rewrite book_orders_expire. apply list_elem_of_filter.
    split; [|exact Ho].
    destruct (expired now o) eqn:E; [|exact I].
    apply expired_spec in E as [Hg Hle]. destruct Hkeep as [Hd|Hlt]; [congruence|lia].
  - apply expire_side_levels.
  - apply expire_side_levels.
  - simpl. rewrite side_orders_expire. apply sublist_filter.
  - simpl. rewrite side_orders_expire. apply sublist_filter.
  - reflexivity.
Qed.

(** ** The daily reset *)

(** C7, as amended. The daily reset of the worker, due when more than 24
    hours have passed since the last one, zeroes the daily and per-window
    counters and restarts the period; it leaves the book as it was, so
    every DAY order that rested before the reset rests after it. *)
Theorem daily_reset_keeps_book (now now_reset : Z) (w : WorkerClock) (e : MatchingEngine) :
  daily_reset_due now w = true ->
  orderBook (daily_reset_step now now_reset w e).2 = orderBook e
  /\ stats (daily_reset_step now now_reset w e).2 = resetDailyStats now_reset (stats e)
  /\ lastStatsReset (daily_reset_step now now_reset w e).1 = now
  /\ (forall o, o ∈ book_orders (orderBook e) -> Order.timeinforce o = DAY ->
                o ∈ book_orders (orderBook (daily_reset_step now now_reset w e).2)).
Proof.
  intros Hdue. unfold daily_reset_step. rewrite Hdue. simpl. auto.
Qed.

(** C7 as stated fails: twenty-five hours after the last reset the reset
    step runs on [gtd_engine] and the DAY bid 1004 still rests. *)
Lemma daily_reset_leaves_DAY_order :
  ~ (forall now now_reset w e,
        daily_reset_due now w = true ->
        no_day_order (orderBook (daily_reset_step now now_reset w e).2)).
Proof.
  intros H.
  assert (daily_reset_due (hours 25) day_old_clock = true) as Hdue by reflexivity.
  apply (H (hours 25) (hours 25) day_old_clock gtd_engine Hdue bid_day); [|reflexivity].
  vm_compute. set_solver.
Qed.

(** ** Engine start *)

(** C10. Starting a stopped engine stores zero into every counter, the
    lifetime totals included, so that no total survives a stop followed by
    a start. *)
Theorem start_zeroes_lifetime_totals (now : Z) (e : MatchingEngine) :
  (isRunning e = false ->
   stats (start now e) = zero_stats now
   /\ totalTradeCount (stats (start now e)) = 0
   /\ totalVolume (stats (start now e)) = 0%Q
   /\ dailyTradeCount (stats (start now e)) = 0
   /\ dailyVolume (stats (start now e)) = 0%Q
   /\ matchingAttempts (stats (start now e)) = 0
   /\ successfulMatches (stats (start now e)) = 0
   /\ isRunning (start now e) = true)
  /\ totalTradeCount (stats (start now (stop e))) = 0
  /\ totalVolume (stats (start now (stop e))) = 0%Q.
Proof.
  split.
  - intros Hstop. unfold start. rewrite Hstop. simpl. auto 10.
  - unfold start, stop. destruct (isRunning e) eqn:E; simpl; rewrite ?E; simpl; auto.
Qed.

(** ** The registry *)

Lemma isUniqueInstrument_spec s i :
  isUniqueInstrument s i = true <-> instrument_key i ∉ s.
Proof. unfold isUniqueInstrument. apply bool_decide_eq_true. Qed.

Lemma InstrumentManager_new_inv : registry_inv InstrumentManager_new.
Proof.
  split; [|constructor]. intros k. simpl. split; intros H; [set_solver|inversion H].
Qed.

Lemma addInstrument_new im i :
  registry_inv im -> instrument_key i ∉ instrument_key <$> instruments im ->
  addInstrument im i
  = (true, mkInstrumentManager ({[ instrument_key i ]} ∪ instrumentSet im)
                               (instruments im ++ [i])).
Proof.
  intros [Hset _] Hnew. unfold addInstrument.
  destruct (isUniqueInstrument (instrumentSet im) i) eqn:E; [reflexivity|].
  apply not_true_iff_false in E. exfalso. apply E, isUniqueInstrument_spec.
  by rewrite Hset.
Qed.

Lemma addInstrument_conflict im i :
  registry_inv im -> instrument_key i ∈ instrument_key <$> instruments im ->
  addInstrument im i = (false, im).
Proof.
  intros [Hset _] Hold. unfold addInstrument.
  destruct (isUniqueInstrument (instrumentSet im) i) eqn:E; [|reflexivity].
  apply isUniqueInstrument_spec in E. exfalso. apply E. by rewrite Hset.
Qed.

Lemma addInstrument_inv im i : registry_inv im -> registry_inv (addInstrument im i).2.
Proof.
  intros Hinv.
  destruct (decide (instrument_key i ∈ instrument_key <$> instruments im)) as [Hold|Hnew].
  - by rewrite addInstrument_conflict.
  - rewrite addInstrument_new by assumption. destruct Hinv as [Hset Hnd].
    unfold registry_inv. simpl. split.
    + intros k. rewrite fmap_app, elem_of_app, elem_of_union, Hset. simpl.
      rewrite list_elem_of_singleton, elem_of_singleton. tauto.
    + rewrite fmap_app. apply NoDup_app. split_and!; [exact Hnd| |apply NoDup_singleton].
      intros k Hk Hk'. apply list_elem_of_singleton in Hk' as ->. contradiction.
Qed.

Lemma addInstruments_cons im i l :
  addInstruments im (i :: l)
  = ((addInstrument im i).1 :: (addInstruments (addInstrument im i).2 l).1,
     (addInstruments (addInstrument im i).2 l).2).
Proof.
  simpl. destruct (addInstrument im i) as [r im1]. simpl.
  destruct (addInstruments im1 l) as [rs im2]. reflexivity.
Qed.

Lemma addInstruments_inv im l : registry_inv im -> registry_inv (addInstruments im l).2.
Proof.
  revert im. induction l as [|i l IH]; intros im Hinv; [exact Hinv|].
  rewrite addInstruments_cons. simpl. apply IH. by apply addInstrument_inv.
Qed.

Lemma first_with_key_skip k i l1 l2 :
  instrument_key i ∈ instrument_key <$> l1 ->
  first_with_key k (l1 ++ i :: l2) = first_with_key k (l1 ++ l2).
Proof.
  intros Hin. unfold first_with_key. rewrite !filter_app, filter_cons.
  destruct (decide (instrument_key i = k)) as [Hk|Hk]; [|reflexivity].
  apply list_elem_of_fmap in Hin as (j & Hj & Hin).
  assert (j ∈ filter (λ x, instrument_key x = k) l1) as Hf.
  { apply list_elem_of_filter. split; [congruence|exact Hin]. }
  destruct (filter _ l1) as [|x xs]; [inversion Hf|reflexivity].
Qed.

Lemma addInstruments_first k im l :
  registry_inv im ->
  first_with_key k (instruments (addInstruments im l).2)
  = first_with_key k (instruments im ++ l).
Proof.
  revert im. induction l as [|i l IH]; intros im Hinv.
  - simpl. by rewrite app_nil_r.
  - rewrite addInstruments_cons. simpl. rewrite IH by (by apply addInstrument_inv).
    destruct (decide (instrument_key i ∈ instrument_key <$> instruments im)) as [Hold|Hnew].
    + rewrite addInstrument_conflict by assumption. simpl.
      symmetry. by apply first_with_key_skip.
    + rewrite addInstrument_new by assumption. simpl. by rewrite <- app_assoc.
Qed.

Lemma addInstruments_sublist im l :
  registry_inv im ->
  instruments (addInstruments im l).2 `sublist_of` instruments im ++ l.
Proof.
  revert im. induction l as [|i l IH]; intros im Hinv.
  - simpl. by rewrite app_nil_r.
  - rewrite addInstruments_cons. simpl.
    etransitivity; [apply IH; by apply addInstrument_inv|].
    destruct (decide (instrument_key i ∈ instrument_key <$> instruments im)) as [Hold|Hnew].
    + rewrite addInstrument_conflict by assumption. simpl.
      apply sublist_app; [reflexivity|by apply sublist_cons].
    + rewrite addInstrument_new by assumption. simpl. by rewrite <- app_assoc.
Qed.

Lemma NoDup_keys_filter k (l : list Instrument.t) :
  NoDup (instrument_key <$> l) ->
  (length (filter (λ i, instrument_key i = k) l) <= 1)%nat.
Proof.
  induction l as [|i l IH]; intros Hnd; [simpl; lia|].
  rewrite fmap_cons in Hnd. apply NoDup_cons in Hnd as [Hni Hnd].
  rewrite filter_cons. destruct (decide (instrument_key i = k)) as [Hk|Hk]; [|auto].
  assert (filter (λ x, instrument_key x = k) l = []) as ->; [|simpl; lia].
  destruct (filter _ l) as [|x xs] eqn:E; [reflexivity|]. exfalso. apply Hni.
  assert (x ∈ filter (λ x, instrument_key x = k) l) as Hx by (rewrite E; left).
  apply list_elem_of_filter in Hx as [Hxk Hx].
  apply list_elem_of_fmap. exists x. split; [congruence|exact Hx].
Qed.

(** C9. After any sequence of registrations from the empty registry, at
    most one instrument is stored for every triple and it is the first of
    the sequence with that triple, the stored list follows the order of
    registration, and the set holds exactly the stored triples; a further
    registration returns true and appends the instrument exactly when its
    triple is new, and returns false leaving set and list as they were on
    a conflict. *)
Theorem addInstrument_unique_first_wins (l : list Instrument.t) :
  let im := (addInstruments InstrumentManager_new l).2 in
  NoDup (instrument_key <$> instruments im)
  /\ (forall k, (length (filter (λ i, instrument_key i = k) (instruments im)) <= 1)%nat)
  /\ (forall k, first_with_key k (instruments im) = first_with_key k l)
  /\ instruments im `sublist_of` l
  /\ (forall k, k ∈ instrumentSet im <-> k ∈ instrument_key <$> instruments im)
  /\ (forall i,
        (instrument_key i ∉ instrument_key <$> instruments im ->
         addInstrument im i
         = (true, mkInstrumentManager ({[ instrument_key i ]} ∪ instrumentSet im)
                                      (instruments im ++ [i])))
        /\ (instrument_key i ∈ instrument_key <$> instruments im ->
            addInstrument im i = (false, im))
        /\ ((addInstrument im i).1 = true
            <-> instrument_key i ∉ instrument_key <$> instruments im)).
Proof.
  intros im.
  pose proof (addInstruments_inv _ l InstrumentManager_new_inv) as Hinv. fold im in Hinv.
  split_and!.
  - apply Hinv.
  - intros k. apply NoDup_keys_filter, Hinv.
  - intros k. unfold im. by rewrite addInstruments_first by apply InstrumentManager_new_inv.
  - apply (addInstruments_sublist InstrumentManager_new l InstrumentManager_new_inv).
  - apply Hinv.
  - intros i. split_and!.
    + by apply addInstrument_new.
    + by apply addInstrument_conflict.
    + destruct (decide (instrument_key i ∈ instrument_key <$> instruments im)) as [Hold|Hnew].
      * rewrite addInstrument_conflict by assumption. simpl. split; [discriminate|contradiction].
      * rewrite addInstrument_new by assumption. simpl. tauto.
Qed.

(** ** Submission *)

Lemma instrument_matches_key i o :
  instrument_matches i o = true <-> instrument_key i = order_key o.
Proof.
  unfold instrument_matches, instrument_key, order_key.
  rewrite !andb_true_iff, !bool_decide_eq_true, Z.eqb_eq.
  split; [intros [[-> ->] ->]; reflexivity|intros [= -> -> ->]; auto].
Qed.

Lemma validateQuantity_None o i : validateQuantity o i = None -> Instrument.lotsize i = 0.
Proof.
  unfold validateQuantity.
  destruct (Order.quantity o <=? 0); [discriminate|].
  destruct (negb (Z.rem (Order.quantity o) 1 =? 0)); [discriminate|].
  destruct (Z.eqb_spec (Instrument.lotsize i) 0); [auto|].
  destruct (negb _); discriminate.
Qed.

Lemma addAndValidateOrder_from_spec now e o (l : list Instrument.t) :
  NoDup (instrument_key <$> l) ->
  Forall (λ i, Instrument.lotsize i <> 0) l ->
  exists r e',
    addAndValidateOrder_from now e o l = Some (r, e')
    /\ (r = true <-> exists i, i ∈ l /\ instrument_key i = order_key o
                               /\ validatePrice o i = true
                               /\ validateQuantity o i = Some true)
    /\ (r = false -> e' = e).
Proof.
  induction l as [|i l IH]; intros Hnd Hlot.
  - exists false, e. split; [reflexivity|]. split; [|auto].
    split; [discriminate|]. intros (i & Hi & _). inversion Hi.
  - rewrite fmap_cons in Hnd. apply NoDup_cons in Hnd as [Hni Hnd].
    apply Forall_cons in Hlot as [Hlot_i Hlot].
    assert (forall j, j ∈ i :: l -> instrument_key i = order_key o ->
                      instrument_key j = order_key o -> j = i) as Huniq.
    { intros j Hj Hki Hkj. apply elem_of_cons in Hj as [->|Hj]; [reflexivity|].
      exfalso. apply Hni. apply list_elem_of_fmap. exists j. split; [congruence|exact Hj]. }
    cbn [addAndValidateOrder_from].
    destruct (instrument_matches i o) eqn:Hm.
    + apply instrument_matches_key in Hm.
      destruct (validatePrice o i) eqn:Hp.
      * destruct (validateQuantity o i) as [[|]|] eqn:Hq.
        -- destruct (accept_order_total now e o) as [e1 ->].
           exists true, e1. split; [reflexivity|]. split; [|discriminate].
           split; [|reflexivity]. intros _. exists i. split; [by left|auto].
        -- exists false, e. split; [reflexivity|]. split; [|auto].
           split; [discriminate|]. intros (j & Hj & Hkj & _ & Hqj).
           rewrite (Huniq j Hj Hm Hkj) in Hqj. congruence.
        -- apply validateQuantity_None in Hq. contradiction.
      * exists false, e. split; [reflexivity|]. split; [|auto].
        split; [discriminate|]. intros (j & Hj & Hkj & Hpj & _).
        rewrite (Huniq j Hj Hm Hkj) in Hpj. congruence.
    + destruct (IH Hnd Hlot) as (r & e' & Heq & Hiff & Hrej).
      exists r, e'. split; [exact Heq|]. split; [|exact Hrej].
      rewrite Hiff. split; intros (j & Hj & Hkj & Hv).
      * exists j. split; [by right|auto].
      * exists j. split; [|auto].
        apply elem_of_cons in Hj as [->|Hj]; [|exact Hj].
        apply instrument_matches_key in Hkj. congruence.
Qed.

(** C2. On a registry without two instruments of the same triple and
    without a zero lot size, a submission returns; it returns true if and
    only if some registered instrument has the triple of the order and
    both validators pass against it; when it returns false the engine,
    and with it the order book, is unchanged. *)
Theorem addAndValidateOrder_true_iff_valid (now : Z) (e : MatchingEngine) (o : Order.t) :
  NoDup (instrument_key <$> getInstruments (instrumentManager e)) ->
  Forall (λ i, Instrument.lotsize i <> 0) (getInstruments (instrumentManager e)) ->
  exists r e',
    addAndValidateOrder now e o = Some (r, e')
    /\ (r = true <-> valid_for_some_instrument (instrumentManager e) o)
    /\ (r = false -> e' = e /\ orderBook e' = orderBook e).
Proof.
  intros Hnd Hlot.
  destruct (addAndValidateOrder_from_spec now e o _ Hnd Hlot) as (r & e' & Heq & Hiff & Hrej).
  exists r, e'. split; [exact Heq|]. split; [exact Hiff|].
  intros Hr. rewrite (Hrej Hr). auto.
Qed.

(** ** The scenarios, evaluated *)

Example scenario2_time_priority :
  bidOrders (addOrder scenario2_book bid1003)
  = [(155%Q, [Order.with_quantity bid1001 100; bid1002; bid1003])].
Proof. reflexivity. Qed.

Example scenario3_gtd_expiry :
  askOrders (orderBook (checkGTDOrders (hours 2) gtd_engine)) = [(152%Q, [])]
  /\ bidOrders (orderBook (checkGTDOrders (hours 2) gtd_engine)) = [(150%Q, [bid_day])]
  /\ getLastTrade (orderBook (checkGTDOrders (hours 2) gtd_engine))
     = getLastTrade (orderBook gtd_engine).
Proof. repeat split. Qed.

Example scenario4_rejections :
  validatePrice bid_off_tick (instr 1) = false
  /\ validateQuantity bid_off_lot (instr 1) = Some false
  /\ submit_all 0 (engine0 registry1) [bid_off_tick; bid_off_lot]
     = Some ([false; false], engine0 registry1).
Proof. repeat split; vm_compute; reflexivity. Qed.

Example scenario5_duplicate_registration :
  (addInstruments InstrumentManager_new [instr 1; instr 1]).1 = [true; false]
  /\ getInstruments (addInstruments InstrumentManager_new [instr 1; instr 1]).2 = [instr 1].
Proof. split; vm_compute; reflexivity. Qed.

Example scenario6_incompatible_top :
  exists ob',
    matchOrders 0 (addOrder (addOrder (setMatchingEngine OrderBook_new)
                                      (day_order 1 BID 1 100 100 0))
                            (day_order 2 ASK 2 100 100 0)) (zero_stats 0)
    = Some (0, ob', zero_stats 0)
    /\ length (book_orders ob') = 2%nat.
Proof. eexists. split; vm_compute; reflexivity. Qed.

(** The book [crossed_below_top] is the one three accepted submissions
    leave. *)
Example crossed_below_top_reached :
  exists e',
    submit_all 0 (engine0 registry12) [bid_i1_100; bid_i2_99; ask_i2_98]
    = Some ([true; true; true], e')
    /\ orderBook e' = crossed_below_top.
Proof. eexists. split; vm_compute; reflexivity. Qed.

(** An empty price level left by the expiry sweep stops the next sweep
    before the crossed pair under it is looked at. *)
Example empty_level_stops_sweep :
  let ob := mkOrderBook [(100%Q, []); (99%Q, [day_order 2 BID 1 99 100 1])]
                        [(98%Q, [day_order 3 ASK 1 98 100 2])] [] 1 true in
  matchOrders 0 ob (zero_stats 0)
  = Some (0, mkOrderBook [(99%Q, [day_order 2 BID 1 99 100 1])]
                         [(98%Q, [day_order 3 ASK 1 98 100 2])] [] 1 true,
          zero_stats 0).
Proof. vm_compute. reflexivity. Qed.

(** A whole iteration of the worker twenty-five hours after the last
    reset: the expired GTD ask goes, the DAY bid stays. *)
Example worker_iteration_keeps_DAY_order :
  exists w' e',
    run_iteration (hours 25) (hours 25) (hours 25) (hours 25) day_old_clock gtd_engine
    = Some (w', e')
    /\ lastStatsReset w' = hours 25
    /\ bidOrders (orderBook e') = [(150%Q, [bid_day])]
    /\ askOrders (orderBook e') = [(152%Q, [])].
Proof. eexists _, _. split; [vm_compute; reflexivity|]. repeat split. Qed.

(** ** The theorems at the scenarios *)

Lemma scenario1_book_priced :
  side_priced (bidOrders scenario1_book) /\ side_priced (askOrders scenario1_book).
Proof. split; repeat constructor. Qed.

Lemma scenario1_book_clean :
  side_clean (bidOrders scenario1_book) /\ side_clean (askOrders scenario1_book).
Proof. split; repeat constructor; simpl; discriminate. Qed.

Lemma scenario2_book_wf : book_wf scenario2_book.
Proof.
  repeat split; try (repeat constructor; fail).
  vm_compute. repeat constructor; discriminate.
Qed.

Lemma matchOrders_no_crossed_top_witness :
  (side_priced (bidOrders scenario1_book) /\ side_priced (askOrders scenario1_book))
  /\ (side_clean (bidOrders scenario1_book) /\ side_clean (askOrders scenario1_book))
  /\ exists n ob' s',
       matchOrders 0 scenario1_book (zero_stats 0) = Some (n, ob', s')
       /\ no_crossed_top ob'.
Proof.
  split; [exact scenario1_book_priced|]. split; [exact scenario1_book_clean|].
  apply (matchOrders_no_crossed_top 0 scenario1_book (zero_stats 0)).
  - apply scenario1_book_priced.
  - apply scenario1_book_priced.
  - apply scenario1_book_clean.
  - apply scenario1_book_clean.
Defined.

Lemma addAndValidateOrder_true_iff_valid_witness :
  NoDup (instrument_key <$> getInstruments (instrumentManager (engine0 registry1)))
  /\ Forall (λ i, Instrument.lotsize i <> 0)
            (getInstruments (instrumentManager (engine0 registry1)))
  /\ exists r e',
       addAndValidateOrder 0 (engine0 registry1) bid1001 = Some (r, e')
       /\ (r = true <-> valid_for_some_instrument (instrumentManager (engine0 registry1)) bid1001)
       /\ (r = false -> e' = engine0 registry1 /\ orderBook e' = orderBook (engine0 registry1)).
Proof.
  assert (NoDup (instrument_key <$> getInstruments (instrumentManager (engine0 registry1))))
    as Hnd by (vm_compute; apply NoDup_singleton).
  assert (Forall (λ i, Instrument.lotsize i <> 0)
                 (getInstruments (instrumentManager (engine0 registry1))))
    as Hlot by (vm_compute; repeat constructor; discriminate).
  split; [exact Hnd|]. split; [exact Hlot|].
  exact (addAndValidateOrder_true_iff_valid 0 (engine0 registry1) bid1001 Hnd Hlot).
Defined.

Lemma matchOrders_conservation_witness :
  NoDup (Order.idorder <$> book_orders scenario1_book)
  /\ bid1001 ∈ book_orders scenario1_book
  /\ exists n ob' s' new,
       matchOrders 0 scenario1_book (zero_stats 0) = Some (n, ob', s')
       /\ trades ob' = trades scenario1_book ++ new
       /\ Z.of_nat (length new) = n
       /\ filled_qty ob' bid1001 - filled_qty scenario1_book bid1001
          = traded_qty (Order.idorder bid1001) new.
Proof.
  assert (NoDup (Order.idorder <$> book_orders scenario1_book)) as Hnd.
  { apply (bool_decide_unpack _). vm_compute. exact I. }
  assert (bid1001 ∈ book_orders scenario1_book) as Hin by (vm_compute; left).
  split; [exact Hnd|]. split; [exact Hin|].
  exact (matchOrders_conservation 0 scenario1_book (zero_stats 0) bid1001 Hnd Hin).
Defined.

Lemma price_time_priority_invariant_witness :
  book_wf scenario2_book
  /\ arrives_last scenario2_book bid1003
  /\ book_wf (addOrder scenario2_book bid1003)
  /\ price_time_priority bid_cmp (bidOrders (addOrder scenario2_book bid1003)).
Proof.
  assert (arrives_last scenario2_book bid1003) as Hlast.
  { intros o' Ho'. vm_compute in Ho'.
    apply elem_of_cons in Ho' as [->|Ho']; [vm_compute; discriminate|].
    apply list_elem_of_singleton in Ho' as ->. vm_compute; discriminate. }
  destruct price_time_priority_invariant as [_ Hinv].
  destruct (Hinv scenario2_book scenario2_book_wf) as (_ & Hadd & _).
  pose proof (Hadd bid1003 Hlast) as Hwf.
  destruct (Hinv (addOrder scenario2_book bid1003) Hwf) as ([Hptp _] & _).
  split; [exact scenario2_book_wf|]. split; [exact Hlast|]. split; [exact Hwf|exact Hptp].
Defined.

Lemma daily_reset_keeps_book_witness :
  daily_reset_due (hours 25) day_old_clock = true
  /\ orderBook (daily_reset_step (hours 25) (hours 25) day_old_clock gtd_engine).2
     = orderBook gtd_engine
  /\ bid_day
     ∈ book_orders (orderBook (daily_reset_step (hours 25) (hours 25) day_old_clock gtd_engine).2).
Proof.
  destruct (daily_reset_keeps_book (hours 25) (hours 25) day_old_clock gtd_engine eq_refl)
    as (Hbook & _ & _ & Hday).
  split; [reflexivity|]. split; [exact Hbook|].
  apply Hday; [vm_compute; set_solver|reflexivity].
Defined.

Lemma checkGTDOrders_removes_expired_only_witness :
  (ask3001 ∉ book_orders (orderBook (checkGTDOrders (hours 2) gtd_engine)))
  /\ bid_day ∈ book_orders (orderBook gtd_engine)
  /\ bid_day ∈ book_orders (orderBook (checkGTDOrders (hours 2) gtd_engine)).
Proof.
  destruct (checkGTDOrders_removes_expired_only (hours 2) gtd_engine) as (Hgone & Hkept & _).
  assert (bid_day ∈ book_orders (orderBook gtd_engine)) as Hin by (vm_compute; set_solver).
  split; [|split; [exact Hin|]].
  - intros Hin'. apply (Hgone ask3001 Hin'). split; [reflexivity|vm_compute; discriminate].
  - apply (Hkept bid_day Hin). left. reflexivity.
Defined.

Lemma addInstrument_unique_first_wins_witness :
  instruments (addInstruments InstrumentManager_new [instr 1; instr 2; instr 1]).2
  = [instr 1; instr 2]
  /\ addInstrument (addInstruments InstrumentManager_new [instr 1; instr 2; instr 1]).2 (instr 2)
     = (false, (addInstruments InstrumentManager_new [instr 1; instr 2; instr 1]).2).
Proof.
  destruct (addInstrument_unique_first_wins [instr 1; instr 2; instr 1])
    as (_ & _ & _ & _ & _ & Hadd).
  destruct (Hadd (instr 2)) as (_ & Hconflict & _).
  split; [vm_compute; reflexivity|].
  apply Hconflict. vm_compute. right; left.
Defined.

Lemma start_zeroes_lifetime_totals_witness :
  isRunning traded_engine = false
  /\ totalTradeCount (stats traded_engine) = 1
  /\ totalTradeCount (stats (start 5 traded_engine)) = 0
  /\ totalVolume (stats (start 5 traded_engine)) = 0%Q.
Proof.
  destruct (start_zeroes_lifetime_totals 5 traded_engine) as [Hstart _].
  destruct (Hstart eq_refl) as (_ & Hcount & Hvolume & _).
  split; [reflexivity|]. split; [reflexivity|]. split; [exact Hcount|exact Hvolume].
Defined.

(** * Further properties of the book *)

(** ** Work and quantities of a sweep *)

Lemma sweep_length now att bids asks ms sel bids' asks' ms' :
  sweep now att bids asks ms sel bids' asks' ms' ->
  (length (side_orders bids') + length (side_orders asks') + length sel
   <= length (side_orders bids) + length (side_orders asks))%nat.
Proof.
  induction 1 as [asks ms|bids ms|bp bq brest ap aq arest ms Hlt
                 |bp bq brest ap aq arest ms Hle Hno
                 |bp bpre b bpost brest ap apre a apost arest ms b1 a1 ms1 sel bids' asks' ms'
                    Hle Hbpre Hapre Hc He Hsw IH];
    try (simpl; lia).
  - pose proof (cleanup_length ((bp, bq) :: brest)).
    pose proof (cleanup_length ((ap, aq) :: arest)). simpl in *. lia.
  - pose proof (pass_length_lt _ _ _ _ _ _ _ _ bp bpre bpost brest ap apre apost arest He).
    simpl length. lia.
Qed.

(** X1. A sweep of [n] trades leaves at least [n] fewer resting orders:
    every trade takes an order out of the book. *)
Theorem matchOrders_trades_bounded_by_orders (now : Z) (ob : OrderBook) (s : Stats) :
  exists n ob' s',
    matchOrders now ob s = Some (n, ob', s')
    /\ 0 <= n
    /\ Z.of_nat (length (book_orders ob')) + n <= Z.of_nat (length (book_orders ob)).
Proof.
  destruct (matchOrders_run now ob s)
    as (n & ob' & s' & sel & ms' & Hm & Hsw & _ & _ & _ & Hn & _).
  exists n, ob', s'. split; [exact Hm|]. split; [lia|].
  pose proof (sweep_length _ _ _ _ _ _ _ _ _ Hsw).
  unfold book_orders. rewrite !length_app. lia.
Qed.

Lemma side_positive_cleanup (m : Side) :
  Forall (λ o, 0 <= Order.quantity o) (side_orders m) -> side_positive (cleanup_side m).
Proof.
  unfold side_positive. rewrite side_orders_cleanup, !Forall_forall.
  intros Hall o Ho. apply list_elem_of_filter in Ho as [Hlive Ho].
  specialize (Hall o Ho). unfold executed in Hlive.
  destruct (Z.eqb_spec (Order.quantity o) 0); [simpl in Hlive; tauto|lia].
Qed.

Lemma side_bounded_cleanup (m : Side) : side_bounded m -> side_bounded (cleanup_side m).
Proof.
  unfold side_bounded. rewrite side_orders_cleanup. by apply Forall_filter_keep.
Qed.

Lemma Forall_top (P : Order.t -> Prop) k pre post b b1 m :
  Forall P (side_orders ((k, pre ++ b :: post) :: m)) -> P b1 ->
  Forall P (side_orders ((k, pre ++ b1 :: post) :: m)).
Proof.
  rewrite !side_orders_cons, !Forall_app, !Forall_cons. tauto.
Qed.

Lemma Forall_top_elem (P : Order.t -> Prop) k pre post b m :
  Forall P (side_orders ((k, pre ++ b :: post) :: m)) -> P b.
Proof. rewrite Forall_forall. intros H. apply H, top_elem_of. Qed.

Lemma sweep_positive now att bids asks ms sel bids' asks' ms' :
  sweep now att bids asks ms sel bids' asks' ms' ->
  side_positive bids -> side_positive asks ->
  side_positive bids' /\ side_positive asks'
  /\ Forall (λ p, 0 < Z.min (Order.quantity p.1) (Order.quantity p.2)) sel.
Proof.
  induction 1 as [asks ms|bids ms|bp bq brest ap aq arest ms Hlt
                 |bp bq brest ap aq arest ms Hle Hno
                 |bp bpre b bpost brest ap apre a apost arest ms b1 a1 ms1 sel bids' asks' ms'
                    Hle Hbpre Hapre Hc He Hsw IH];
    intros Hb Ha; auto.
  - split_and!; [| |constructor];
      apply side_positive_cleanup; (eapply Forall_impl; [eassumption|]); simpl; lia.
  - destruct (execute_trade_orders _ _ _ _ _ _ _ _ He) as [-> ->].
    pose proof (Forall_top_elem _ _ _ _ _ _ Hb) as Hqb.
    pose proof (Forall_top_elem _ _ _ _ _ _ Ha) as Hqa. simpl in Hqb, Hqa.
    destruct IH as (Hb' & Ha' & Hsel).
    + apply side_positive_cleanup.
      eapply (Forall_top _ _ _ _ b); [|simpl; lia].
      eapply Forall_impl; [exact Hb|]. simpl. lia.
    + apply side_positive_cleanup.
      eapply (Forall_top _ _ _ _ a); [|simpl; lia].
      eapply Forall_impl; [exact Ha|]. simpl. lia.
    + split_and!; auto. constructor; [simpl; lia|exact Hsel].
Qed.

Lemma sweep_bounded now att bids asks ms sel bids' asks' ms' :
  sweep now att bids asks ms sel bids' asks' ms' ->
  side_positive bids -> side_positive asks ->
  side_bounded bids -> side_bounded asks ->
  side_bounded bids' /\ side_bounded asks'.
Proof.
  induction 1 as [asks ms|bids ms|bp bq brest ap aq arest ms Hlt
                 |bp bq brest ap aq arest ms Hle Hno
                 |bp bpre b bpost brest ap apre a apost arest ms b1 a1 ms1 sel bids' asks' ms'
                    Hle Hbpre Hapre Hc He Hsw IH];
    intros Hpb Hpa Hb Ha; auto.
  - split; by apply side_bounded_cleanup.
  - destruct (execute_trade_orders _ _ _ _ _ _ _ _ He) as [-> ->].
    pose proof (Forall_top_elem _ _ _ _ _ _ Hpb) as Hqb.
    pose proof (Forall_top_elem _ _ _ _ _ _ Hpa) as Hqa.
    pose proof (Forall_top_elem _ _ _ _ _ _ Hb) as Hob.
    pose proof (Forall_top_elem _ _ _ _ _ _ Ha) as Hoa. simpl in Hqb, Hqa, Hob, Hoa.
    apply IH.
    + apply side_positive_cleanup. eapply (Forall_top _ _ _ _ b); [|simpl; lia].
      eapply Forall_impl; [exact Hpb|]. simpl. lia.
    + apply side_positive_cleanup. eapply (Forall_top _ _ _ _ a); [|simpl; lia].
      eapply Forall_impl; [exact Hpa|]. simpl. lia.
    + apply side_bounded_cleanup. eapply (Forall_top _ _ _ _ b); [exact Hb|simpl; lia].
    + apply side_bounded_cleanup. eapply (Forall_top _ _ _ _ a); [exact Ha|simpl; lia].
Qed.

Lemma trades_from_quantity now id sel :
  Forall (λ p, 0 < Z.min (Order.quantity p.1) (Order.quantity p.2)) sel ->
  Forall (λ t, 0 < Trade.quantity t) (trades_from now id sel).
Proof.
  intros H. revert id. induction H as [|[b a] sel Hp _ IH]; intros id; simpl.
  - constructor.
  - constructor; [exact Hp|apply IH].
Qed.

(** X2. On a book whose resting orders all have a positive remaining
    quantity not above their original quantity, a sweep only writes
    trades of positive quantity and leaves every resting order with a
    positive remaining quantity not above its original quantity. *)
Theorem matchOrders_keeps_quantities_positive (now : Z) (ob : OrderBook) (s : Stats) :
  side_positive (bidOrders ob) -> side_positive (askOrders ob) ->
  side_bounded (bidOrders ob) -> side_bounded (askOrders ob) ->
  exists n ob' s' new,
    matchOrders now ob s = Some (n, ob', s')
    /\ trades ob' = trades ob ++ new
    /\ Forall (λ t, 0 < Trade.quantity t) new
    /\ side_positive (bidOrders ob') /\ side_positive (askOrders ob')
    /\ side_bounded (bidOrders ob') /\ side_bounded (askOrders ob').
Proof.
  intros Hpb Hpa Hb Ha.
  destruct (matchOrders_run now ob s)
    as (n & ob' & s' & sel & ms' & Hm & Hsw & Ht & _).
  destruct (sweep_positive _ _ _ _ _ _ _ _ _ Hsw Hpb Hpa) as (Hpb' & Hpa' & Hsel).
  destruct (sweep_bounded _ _ _ _ _ _ _ _ _ Hsw Hpb Hpa Hb Ha) as (Hb' & Ha').
  exists n, ob', s', (trades_from now (nextTradeId ob) sel).
  split_and!; auto. by apply trades_from_quantity.
Qed.

(** ** Who trades, and at what price *)

Lemma sweep_priced now att bids asks ms sel bids' asks' ms' :
  sweep now att bids asks ms sel bids' asks' ms' ->
  side_priced bids -> side_priced asks ->
  side_priced bids' /\ side_priced asks'.
Proof.
  induction 1 as [asks ms|bids ms|bp bq brest ap aq arest ms Hlt
                 |bp bq brest ap aq arest ms Hle Hno
                 |bp bpre b bpost brest ap apre a apost arest ms b1 a1 ms1 sel bids' asks' ms'
                    Hle Hbpre Hapre Hc He Hsw IH];
    intros Hb Ha; auto.
  - split; by apply cleanup_side_priced.
  - destruct (execute_trade_orders _ _ _ _ _ _ _ _ He) as [-> ->].
    apply IH; by apply cleanup_side_priced, top_priced.
Qed.

Lemma top_price k pre post b m :
  side_priced ((k, pre ++ b :: post) :: m) -> (Order.price b == k)%Q.
Proof.
  intros H. apply Forall_cons in H as [Hq _]. simpl in Hq.
  rewrite Forall_forall in Hq. apply Hq. apply elem_of_app. right. by left.
Qed.

Lemma sweep_selected now att bids asks ms sel bids' asks' ms' :
  sweep now att bids asks ms sel bids' asks' ms' ->
  side_priced bids -> side_priced asks ->
  Forall (λ p, erase_quantity p.1 ∈ erase_quantity <$> side_orders bids
               /\ erase_quantity p.2 ∈ erase_quantity <$> side_orders asks
               /\ compatible p.1 p.2 = true
               /\ (Order.price p.2 <= Order.price p.1)%Q) sel.
Proof.
  induction 1 as [asks ms|bids ms|bp bq brest ap aq arest ms Hlt
                 |bp bq brest ap aq arest ms Hle Hno
                 |bp bpre b bpost brest ap apre a apost arest ms b1 a1 ms1 sel bids' asks' ms'
                    Hle Hbpre Hapre Hc He Hsw IH];
    intros Hb Ha; try constructor.
  - simpl. split_and!.
    + apply list_elem_of_fmap. exists b. split; [reflexivity|apply top_elem_of].
    + apply list_elem_of_fmap. exists a. split; [reflexivity|apply top_elem_of].
    + exact Hc.
    + rewrite (top_price _ _ _ _ _ Hb), (top_price _ _ _ _ _ Ha). exact Hle.
  - destruct (execute_trade_orders _ _ _ _ _ _ _ _ He) as [-> ->].
    eapply Forall_impl; [apply IH; by apply cleanup_side_priced, top_priced|].
    intros [x y] (Hx & Hy & Hxy & Hp). simpl in *. split_and!; auto.
    + eapply sublist_subseteq; [apply pass_sublist|exact Hx].
    + eapply sublist_subseteq; [apply pass_sublist|exact Hy].
Qed.

Lemma trades_from_Forall (P : Trade.t -> Prop) (R : Order.t * Order.t -> Prop) now id sel :
  (forall k p, R p -> P (make_trade now k p.1 p.2)) ->
  Forall R sel -> Forall P (trades_from now id sel).
Proof.
  intros HRP H. revert id. induction H as [|[b a] sel Hp _ IH]; intros id; simpl.
  - constructor.
  - constructor; [exact (HRP id (b, a) Hp)|apply IH].
Qed.

Lemma erase_quantity_fields (x y : Order.t) :
  erase_quantity x = erase_quantity y ->
  Order.idorder x = Order.idorder y
  /\ Order.price x = Order.price y
  /\ forall z, compatible x z = compatible y z /\ compatible z x = compatible z y.
Proof.
  intros H.
  assert (Order.idorder (erase_quantity x) = Order.idorder (erase_quantity y)) as H1
    by (by rewrite H).
  assert (Order.price (erase_quantity x) = Order.price (erase_quantity y)) as H2
    by (by rewrite H).
  split; [exact H1|]. split; [exact H2|]. intros z.
  change (compatible x z) with (compatible (erase_quantity x) z).
  change (compatible z x) with (compatible z (erase_quantity x)).
  rewrite H. auto.
Qed.

(** X3. On a book whose orders rest at their own price, every trade of
    a sweep is between a bid and an ask that rested in the book when the
    sweep began, which are compatible; it is made at the price of the
    ask, and that price is not above the price of the bid. *)
Theorem matchOrders_trades_within_limits (now : Z) (ob : OrderBook) (s : Stats) :
  side_priced (bidOrders ob) -> side_priced (askOrders ob) ->
  exists n ob' s' new,
    matchOrders now ob s = Some (n, ob', s')
    /\ trades ob' = trades ob ++ new
    /\ Forall (λ t, exists b a,
                 b ∈ side_orders (bidOrders ob) /\ a ∈ side_orders (askOrders ob)
                 /\ compatible b a = true
                 /\ Trade.buyOrderId t = Order.idorder b
                 /\ Trade.sellOrderId t = Order.idorder a
                 /\ Trade.price t = Order.price a
                 /\ (Order.price a <= Order.price b)%Q) new.
Proof.
  intros Hb Ha.
  destruct (matchOrders_run now ob s)
    as (n & ob' & s' & sel & ms' & Hm & Hsw & Ht & _).
  exists n, ob', s', (trades_from now (nextTradeId ob) sel).
  split; [exact Hm|]. split; [exact Ht|].
  eapply trades_from_Forall; [|exact (sweep_selected _ _ _ _ _ _ _ _ _ Hsw Hb Ha)].
  intros k [x y] (Hx & Hy & Hxy & Hp). simpl in *.
  apply list_elem_of_fmap in Hx as (b & Hbe & Hbin).
  apply list_elem_of_fmap in Hy as (a & Hae & Hain).
  destruct (erase_quantity_fields _ _ Hbe) as (Hbid & Hbp & Hbc).
  destruct (erase_quantity_fields _ _ Hae) as (Haid & Hap & Hac).
  exists b, a. split_and!; auto.
  - rewrite <- (proj1 (Hbc a)), <- (proj2 (Hac x)). exact Hxy.
  - rewrite <- Hap, <- Hbp. exact Hp.
Qed.

(** ** Sweeps one after the other *)

Lemma matchOrders_loop_uncrossed fuel now att bids asks ms :
  top_uncrossed bids asks ->
  matchOrders_loop fuel now att bids asks ms = Some (bids, asks, ms).
Proof.
  intros [->|[->|(bp & bq & brest & ap & aq & arest & -> & -> & Hlt)]].
  - destruct fuel; reflexivity.
  - destruct fuel; destruct bids as [|[? ?] ?]; reflexivity.
  - apply Qltb_lt in Hlt. destruct fuel; cbn [matchOrders_loop]; by rewrite Hlt.
Qed.

Lemma matchOrders_loop_no_match fuel now att bp bq brest ap aq arest ms :
  (ap <= bp)%Q ->
  (forall b a, b ∈ bq -> a ∈ aq -> compatible b a = false) ->
  side_clean ((bp, bq) :: brest) -> side_clean ((ap, aq) :: arest) ->
  matchOrders_loop fuel now att ((bp, bq) :: brest) ((ap, aq) :: arest) ms
  = Some ((bp, bq) :: brest, (ap, aq) :: arest, ms).
Proof.
  intros Hle Hno Hcb Hca. apply Qltb_ge in Hle.
  assert (scan_bids now att bq aq ms = (bq, aq, ms, false)) as Hscan.
  { destruct (scan_bids_cases now att bq aq ms)
      as [[_ Heq]|(bpre & b & bpost & apre & a & apost & b1 & a1 & ms1
                   & -> & -> & _ & _ & Hc & _)]; [exact Heq|].
    rewrite Hno in Hc; [discriminate| |]; apply elem_of_app; right; by left. }
  destruct fuel; cbn [matchOrders_loop]; rewrite Hle, Hscan;
    by rewrite (cleanup_side_id _ Hcb), (cleanup_side_id _ Hca).
Qed.

(** Where a sweep of a clean book stops, the loop stops at once. *)
Lemma sweep_end_stable now att bids asks ms sel bids' asks' ms' :
  sweep now att bids asks ms sel bids' asks' ms' ->
  side_clean bids -> side_clean asks ->
  forall fuel now2 ms2,
    matchOrders_loop fuel now2 att bids' asks' ms2 = Some (bids', asks', ms2).
Proof.
  induction 1 as [asks ms|bids ms|bp bq brest ap aq arest ms Hlt
                 |bp bq brest ap aq arest ms Hle Hno
                 |bp bpre b bpost brest ap apre a apost arest ms b1 a1 ms1 sel bids' asks' ms'
                    Hle Hbpre Hapre Hc He Hsw IH];
    intros Hcb Hca fuel now2 ms2.
  - apply matchOrders_loop_uncrossed. by left.
  - apply matchOrders_loop_uncrossed. right. by left.
  - apply matchOrders_loop_uncrossed. right. right. eauto 10.
  - rewrite (cleanup_side_id _ Hcb), (cleanup_side_id _ Hca).
    by apply matchOrders_loop_no_match.
  - apply IH; apply cleanup_side_clean.
Qed.

(** X4. A sweep of a book without empty level and without executed
    order leaves a book on which a further sweep, at any later time and
    whatever the statistics, does nothing: no trade, the same book, the
    same statistics. *)
Theorem matchOrders_idempotent (now : Z) (ob : OrderBook) (s : Stats) :
  side_clean (bidOrders ob) -> side_clean (askOrders ob) ->
  exists n ob' s',
    matchOrders now ob s = Some (n, ob', s')
    /\ forall now2 s2, matchOrders now2 ob' s2 = Some (0, ob', s2).
Proof.
  intros Hcb Hca.
  destruct (matchOrders_run now ob s)
    as (n & ob' & s' & sel & ms' & Hm & Hsw & _ & _ & Hatt & _).
  exists n, ob', s'. split; [exact Hm|]. intros now2 s2.
  unfold matchOrders. rewrite Hatt.
  rewrite (sweep_end_stable _ _ _ _ _ _ _ _ _ Hsw Hcb Hca). simpl.
  rewrite <- Hatt. by destruct ob'.
Qed.

Lemma sweep_clean_or_uncrossed now att bids asks ms sel bids' asks' ms' :
  sweep now att bids asks ms sel bids' asks' ms' ->
  (side_clean bids' /\ side_clean asks') \/ top_uncrossed bids' asks'.
Proof.
  induction 1 as [asks ms|bids ms|bp bq brest ap aq arest ms Hlt
                 |bp bq brest ap aq arest ms Hle Hno
                 |bp bpre b bpost brest ap apre a apost arest ms b1 a1 ms1 sel bids' asks' ms'
                    Hle Hbpre Hapre Hc He Hsw IH]; auto.
  - right. by left.
  - right. right. by left.
  - right. right. right. eauto 10.
  - left. split; apply cleanup_side_clean.
Qed.

Lemma top_uncrossed_no_crossed bids asks :
  side_priced bids -> side_priced asks -> top_uncrossed bids asks ->
  bids = [] \/ asks = [] \/ crossing_free (top_queue bids) (top_queue asks).
Proof.
  intros Hb Ha [->|[->|(bp & bq & brest & ap & aq & arest & -> & -> & Hlt)]]; auto.
  right. right. intros b a Hbin Hain _. simpl in *.
  apply Forall_cons in Hb as [Hb _]. apply Forall_cons in Ha as [Ha _].
  rewrite Forall_forall in Hb. rewrite Forall_forall in Ha.
  rewrite (Hb b Hbin), (Ha a Hain). exact Hlt.
Qed.

(** X5. Two sweeps one after the other leave the top of the book
    uncrossed whatever the first one found: on any book whose orders rest
    at their own price, also one with empty levels or executed orders,
    after the second sweep one side is empty or no compatible pair of the
    two best levels is crossed. *)
Theorem matchOrders_twice_no_crossed_top (now1 now2 : Z) (ob : OrderBook) (s : Stats) :
  side_priced (bidOrders ob) -> side_priced (askOrders ob) ->
  exists n1 ob1 s1 n2 ob2 s2,
    matchOrders now1 ob s = Some (n1, ob1, s1)
    /\ matchOrders now2 ob1 s1 = Some (n2, ob2, s2)
    /\ no_crossed_top ob2.
Proof.
  intros Hb Ha.
  destruct (matchOrders_run now1 ob s)
    as (n1 & ob1 & s1 & sel1 & ms1 & Hm1 & Hsw1 & _).
  destruct (matchOrders_run now2 ob1 s1)
    as (n2 & ob2 & s2 & sel2 & ms2 & Hm2 & Hsw2 & _).
  exists n1, ob1, s1, n2, ob2, s2. split; [exact Hm1|]. split; [exact Hm2|].
  destruct (sweep_priced _ _ _ _ _ _ _ _ _ Hsw1 Hb Ha) as [Hb1 Ha1].
  destruct (sweep_priced _ _ _ _ _ _ _ _ _ Hsw2 Hb1 Ha1) as [Hb2 Ha2].
  destruct (sweep_clean_or_uncrossed _ _ _ _ _ _ _ _ _ Hsw1) as [[Hcb Hca]|Hun].
  - exact (sweep_no_crossed_top _ _ _ _ _ _ _ _ _ Hsw2 Hb1 Ha1 Hcb Hca).
  - pose proof (matchOrders_loop_uncrossed (length (book_orders ob1)) now2
                  (matchingEngine ob1) _ _
                  (mkMatchState (trades ob1) (nextTradeId ob1) s1 0) Hun) as Hloop.
    unfold matchOrders in Hm2. rewrite Hloop in Hm2. injection Hm2 as <- <- <-.
    by apply top_uncrossed_no_crossed.
Qed.

(** X6. A book that no engine is attached to sweeps without writing any
    statistics. *)
Theorem matchOrders_detached_keeps_stats (now : Z) (ob : OrderBook) (s : Stats) :
  matchingEngine ob = false ->
  exists n ob', matchOrders now ob s = Some (n, ob', s).
Proof.
  intros Hatt.
  destruct (matchOrders_run now ob s)
    as (n & ob' & s' & sel & ms' & Hm & _ & _ & _ & _ & _ & Hs).
  rewrite Hatt, notify_all_detached in Hs. subst s'. eauto.
Qed.

(** ** Numbering of the trades *)





(** * Further properties of the engine *)

(** ** What submissions keep *)

Lemma elem_of_level_push_back cmp p o m x :
  x ∈ side_orders (level_push_back cmp p o m) <-> x = o \/ x ∈ side_orders m.
Proof.
  induction m as [|[k q] m IH]; simpl.
  - rewrite side_orders_cons, elem_of_app, list_elem_of_singleton.
    split; [intros [?|H]; [by left|inversion H]|intros [?|H]; [by left|inversion H]].
  - destruct (cmp k p).
    + rewrite !side_orders_cons, !elem_of_app, IH. tauto.
    + destruct (cmp p k).
      * rewrite !side_orders_cons, !elem_of_app, list_elem_of_singleton. tauto.
      * rewrite !side_orders_cons, !elem_of_app, list_elem_of_singleton. tauto.
Qed.

Lemma level_push_back_clean cmp p o m :
  Order.quantity o <> 0 -> side_clean m -> side_clean (level_push_back cmp p o m).
Proof.
  intros Hq. induction 1 as [|[k q] m [Hne Hall] Hm IH]; simpl.
  - constructor; [|constructor]. simpl. split; [discriminate|by constructor].
  - simpl in *. destruct (cmp k p); [by constructor|].
    destruct (cmp p k).
    + constructor; [|by constructor]. simpl. split; [discriminate|by constructor].
    + constructor; [|exact Hm]. simpl. split.
      * destruct q; discriminate.
      * apply Forall_app. split; [exact Hall|by constructor].
Qed.

Lemma level_push_back_positive cmp p o m :
  0 < Order.quantity o -> side_positive m -> side_positive (level_push_back cmp p o m).
Proof.
  unfold side_positive. rewrite !Forall_forall. intros Hq Hall x Hx.
  apply elem_of_level_push_back in Hx as [->|Hx]; auto.
Qed.

Lemma sweep_clean now att bids asks ms sel bids' asks' ms' :
  sweep now att bids asks ms sel bids' asks' ms' ->
  side_clean bids -> side_clean asks -> side_clean bids' /\ side_clean asks'.
Proof.
  induction 1; intros Hb Ha; auto using cleanup_side_clean.
Qed.

Lemma validateQuantity_positive o i : validateQuantity o i = Some true -> 0 < Order.quantity o.
Proof.
  unfold validateQuantity. destruct (Z.leb_spec (Order.quantity o) 0); [discriminate|auto].
Qed.

Lemma accept_order_settled now e o e' :
  side_priced (bidOrders (orderBook e)) -> side_priced (askOrders (orderBook e)) ->
  side_clean (bidOrders (orderBook e)) -> side_clean (askOrders (orderBook e)) ->
  side_positive (bidOrders (orderBook e)) -> side_positive (askOrders (orderBook e)) ->
  0 < Order.quantity o ->
  accept_order now e o = Some e' ->
  book_settled (orderBook e') /\ instrumentManager e' = instrumentManager e.
Proof.
  intros Hpb Hpa Hcb Hca Hqb Hqa Hq. unfold accept_order.
  destruct (matchOrders_run now (addOrder (orderBook e) o) (stats e))
    as (n & ob' & s' & sel & ms' & Hm & Hsw & _).
  rewrite Hm. intros [= <-]. simpl. split; [|reflexivity].
  assert (side_priced (bidOrders (addOrder (orderBook e) o))
          /\ side_priced (askOrders (addOrder (orderBook e) o))
          /\ side_clean (bidOrders (addOrder (orderBook e) o))
          /\ side_clean (askOrders (addOrder (orderBook e) o))
          /\ side_positive (bidOrders (addOrder (orderBook e) o))
          /\ side_positive (askOrders (addOrder (orderBook e) o)))
    as (Hpb1 & Hpa1 & Hcb1 & Hca1 & Hqb1 & Hqa1).
  { unfold addOrder. destruct (Order.ordertype o); simpl; split_and!; auto.
    - apply level_push_back_priced; auto using bid_cmp_equiv.
    - apply level_push_back_clean; [lia|auto].
    - by apply level_push_back_positive.
    - apply level_push_back_priced; auto using ask_cmp_equiv.
    - apply level_push_back_clean; [lia|auto].
    - by apply level_push_back_positive. }
  destruct (sweep_priced _ _ _ _ _ _ _ _ _ Hsw Hpb1 Hpa1) as [? ?].
  destruct (sweep_clean _ _ _ _ _ _ _ _ _ Hsw Hcb1 Hca1) as [? ?].
  destruct (sweep_positive _ _ _ _ _ _ _ _ _ Hsw Hqb1 Hqa1) as (? & ? & _).
  unfold book_settled. split_and!; auto.
  exact (sweep_no_crossed_top _ _ _ _ _ _ _ _ _ Hsw Hpb1 Hpa1 Hcb1 Hca1).
Qed.

Lemma addAndValidateOrder_from_cases now e o l r e' :
  addAndValidateOrder_from now e o l = Some (r, e') ->
  (r = false /\ e' = e)
  \/ (r = true /\ accept_order now e o = Some e'
      /\ exists i, i ∈ l /\ instrument_matches i o = true
                   /\ validatePrice o i = true /\ validateQuantity o i = Some true).
Proof.
  induction l as [|i l IH]; cbn [addAndValidateOrder_from].
  - intros [= <- <-]. by left.
  - destruct (instrument_matches i o) eqn:Hm.
    + destruct (validatePrice o i) eqn:Hp; [|intros [= <- <-]; by left].
      destruct (validateQuantity o i) as [[|]|] eqn:Hq;
        [|intros [= <- <-]; by left|discriminate].
      destruct (accept_order now e o) as [e1|] eqn:Ha; [|discriminate].
      intros [= <- <-]. right. split; [reflexivity|]. split; [reflexivity|].
      exists i. split; [by left|auto].
    + intros H. destruct (IH H) as [?|(? & ? & j & Hj & ?)]; [by left|].
      right. split_and!; auto. exists j. split; [by right|auto].
Qed.

Lemma addAndValidateOrder_from_total now e o l :
  Forall (λ i, Instrument.lotsize i <> 0) l ->
  is_Some (addAndValidateOrder_from now e o l).
Proof.
  induction 1 as [|i l Hlot _ IH]; cbn [addAndValidateOrder_from]; [by eexists|].
  destruct (instrument_matches i o); [|exact IH].
  destruct (validatePrice o i); [|by eexists].
  destruct (validateQuantity o i) as [[|]|] eqn:Hq; [|by eexists|].
  - destruct (accept_order_total now e o) as [e1 ->]. by eexists.
  - apply validateQuantity_None in Hq. contradiction.
Qed.

(** X8. Submissions keep the book settled: starting from a book whose
    orders rest at their price, that has no empty level, only positive
    remaining quantities and an uncrossed top (the empty book is one), on
    a registry without zero lot size, every sequence of submissions
    returns, one result per order, leaves the registry as it was and
    leaves such a book again. *)
Theorem submissions_keep_book_settled (now : Z) (e : MatchingEngine) (l : list Order.t) :
  Forall (λ i, Instrument.lotsize i <> 0) (getInstruments (instrumentManager e)) ->
  book_settled (orderBook e) ->
  exists rs e',
    submit_all now e l = Some (rs, e')
    /\ length rs = length l
    /\ instrumentManager e' = instrumentManager e
    /\ book_settled (orderBook e').
Proof.
  revert e. induction l as [|o l IH]; intros e Hlot Hset.
  - exists [], e. auto.
  - cbn [submit_all]. unfold addAndValidateOrder.
    destruct (addAndValidateOrder_from_total now e o _ Hlot) as [[r e1] Heq].
    rewrite Heq.
    assert (book_settled (orderBook e1) /\ instrumentManager e1 = instrumentManager e)
      as [Hset1 Him1].
    { destruct (addAndValidateOrder_from_cases _ _ _ _ _ _ Heq)
        as [[_ ->]|(_ & Hacc & i & _ & _ & _ & Hq)]; [auto|].
      destruct Hset as (Hpb & Hpa & Hcb & Hca & Hqb & Hqa & _).
      apply validateQuantity_positive in Hq.
      exact (accept_order_settled _ _ _ _ Hpb Hpa Hcb Hca Hqb Hqa Hq Hacc). }
    destruct (IH e1) as (rs & e' & Hsub & Hlen & Him & Hset');
      [by rewrite Him1|exact Hset1|].
    rewrite Hsub. exists (r :: rs), e'. split_and!; auto.
    + simpl. by rewrite Hlen.
    + by rewrite Him.
Qed.

(** ** The validators *)

(** X9. The quantity validator rejects every quantity that is not
    positive, whatever the lot size; for a positive quantity it divides by
    the lot size: the division by zero of a zero lot size is reached, and
    otherwise the order passes exactly when the lot size divides the
    quantity.  The test on the fractional part never rejects. *)
Theorem validateQuantity_lot_multiple (o : Order.t) (i : Instrument.t) :
  (Order.quantity o <= 0 -> validateQuantity o i = Some false)
  /\ (0 < Order.quantity o -> Instrument.lotsize i = 0 -> validateQuantity o i = None)
  /\ (0 < Order.quantity o -> Instrument.lotsize i <> 0 ->
      (validateQuantity o i = Some true <-> (Instrument.lotsize i | Order.quantity o))
      /\ (validateQuantity o i = Some false <-> ~ (Instrument.lotsize i | Order.quantity o))).
Proof.
  unfold validateQuantity. rewrite Z.rem_1_r. simpl. split_and!.
  - intros Hq. apply Z.leb_le in Hq. by rewrite Hq.
  - intros Hq Hl. apply Z.leb_gt in Hq. rewrite Hq, Hl. reflexivity.
  - intros Hq Hl. apply Z.leb_gt in Hq. rewrite Hq.
    destruct (Z.eqb_spec (Instrument.lotsize i) 0) as [|_]; [contradiction|].
    pose proof (Z.rem_divide (Order.quantity o) (Instrument.lotsize i) Hl) as Hdiv.
    destruct (Z.eqb_spec (Z.rem (Order.quantity o) (Instrument.lotsize i)) 0) as [Hr|Hr];
      simpl; split; split; try discriminate; try tauto.
Qed.




(** ** Expiry sweeps one after the other *)

Lemma filter_expired_twice now1 now2 (q : list Order.t) :
  now1 <= now2 ->
  filter (λ o, negb (expired now2 o)) (filter (λ o, negb (expired now1 o)) q)
  = filter (λ o, negb (expired now2 o)) q.
Proof.
  intros Hle. induction q as [|o q IH]; [reflexivity|].
  rewrite (filter_cons (λ o, negb (expired now1 o))).
  destruct (decide (negb (expired now1 o))) as [H1|H1].
  - rewrite !filter_cons, IH. reflexivity.
  - rewrite IH, filter_cons_False; [reflexivity|].
    intros H2. apply H1.
    destruct (expired now1 o) eqn:E1; [|exact I].
    apply expired_spec in E1 as [Hg He].
    assert (expired now2 o = true) as E2 by (apply expired_spec; split; [auto|lia]).
    rewrite E2 in H2. exact H2.
Qed.

Lemma expire_side_twice now1 now2 (m : Side) :
  now1 <= now2 -> expire_side now2 (expire_side now1 m) = expire_side now2 m.
Proof.
  intros Hle. unfold expire_side. rewrite <- list_fmap_compose.
  apply list_fmap_ext. intros _ [k q] _. simpl. f_equal. by apply filter_expired_twice.
Qed.

(** X11. An expiry sweep makes every earlier one redundant: sweeping at
    [now1] and then at a time [now2] that is not earlier leaves the engine
    that the sweep at [now2] alone leaves; repeating a sweep at the same
    time changes nothing. *)
Theorem checkGTDOrders_absorbs_earlier (now1 now2 : Z) (e : MatchingEngine) :
  now1 <= now2 ->
  checkGTDOrders now2 (checkGTDOrders now1 e) = checkGTDOrders now2 e.
Proof.
  intros Hle. unfold checkGTDOrders. simpl. by rewrite !expire_side_twice.
Qed.

(** ** The worker *)

Lemma updateStats_successful t s :
  successfulMatches (updateStats t s) = fetch_add (successfulMatches s) 1.
Proof. reflexivity. Qed.

Lemma notify_all_attempts att ts s :
  matchingAttempts (notify_all att ts s) = matchingAttempts s.
Proof.
  revert s. induction ts as [|t ts IH]; intros s; [reflexivity|].
  rewrite notify_all_cons, IH. by destruct att.
Qed.

Lemma notify_all_successful t ts s :
  successfulMatches (notify_all true (t :: ts) s)
  = wrap_int (successfulMatches s + Z.of_nat (length (t :: ts))).
Proof.
  revert t s. induction ts as [|t' ts IH]; intros t s.
  - reflexivity.
  - rewrite notify_all_cons, (IH t' (notifyMatch true t s)).
    cbn [notifyMatch]. rewrite updateStats_successful. unfold fetch_add.
    rewrite wrap_int_add_l. f_equal. simpl length. lia.
Qed.

(** X12. The background sweep of the worker counts one attempt and
    delivers every trade to the trade counters once, but counts it twice
    as a successful match: once per trade through the notification and
    once more through the return value of the sweep. *)
Theorem matching_step_counts (now : Z) (e : MatchingEngine) :
  matchingEngine (orderBook e) = true ->
  exists e' new,
    matching_step now e = Some e'
    /\ trades (orderBook e') = trades (orderBook e) ++ new
    /\ matchingAttempts (stats e') = wrap_int (matchingAttempts (stats e) + 1)
    /\ match new with
       | [] =>
           dailyTradeCount (stats e') = dailyTradeCount (stats e)
           /\ totalTradeCount (stats e') = totalTradeCount (stats e)
           /\ successfulMatches (stats e') = successfulMatches (stats e)
       | _ :: _ =>
           dailyTradeCount (stats e')
           = wrap_int (dailyTradeCount (stats e) + Z.of_nat (length new))
           /\ totalTradeCount (stats e')
              = wrap_int (totalTradeCount (stats e) + Z.of_nat (length new))
           /\ successfulMatches (stats e')
              = wrap_int (successfulMatches (stats e) + 2 * Z.of_nat (length new))
       end.
Proof.
  intros Hatt. unfold matching_step.
  set (s1 := mkStats _ _ _ _ _ _ _).
  destruct (matchOrders_run now (orderBook e) s1)
    as (n & ob' & s' & sel & ms' & Hm & _ & Ht & _ & _ & Hn & Hs).
  rewrite Hm, Hatt in *.
  eexists _, (trades_from now (nextTradeId (orderBook e)) sel).
  split; [reflexivity|]. simpl. split; [exact Ht|].
  destruct sel as [|[b a] sel].
  - simpl in *. subst n s'. simpl. auto.
  - replace (0 <? n) with true by (symmetry; apply Z.ltb_lt; simpl in Hn; lia).
    cbn [trades_from] in *. simpl matchingAttempts. simpl dailyTradeCount.
    simpl totalTradeCount. simpl successfulMatches.
    rewrite Hs, notify_all_attempts, notify_all_successful.
    destruct (notify_all_counts
                (make_trade now (nextTradeId (orderBook e)) b a)
                (trades_from now (nextTradeId (orderBook e) + 1) sel) s1) as [-> ->].
    unfold fetch_add. rewrite wrap_int_add_l, Hn, !length_cons, length_trades_from.
    subst s1. simpl. split_and!; auto. f_equal. lia.
Qed.

Lemma matchOrders_wf now ob s n ob' s' :
  book_wf ob -> matchOrders now ob s = Some (n, ob', s') ->
  book_wf ob' /\ exists new, trades ob' = trades ob ++ new.
Proof.
  intros [Hb Ha] Hm.
  destruct (matchOrders_run now ob s)
    as (n0 & ob0 & s0 & sel & ms' & Hm0 & Hsw & Ht & _).
  rewrite Hm in Hm0. injection Hm0 as <- <- <-.
  split; [exact (sweep_wf _ _ _ _ _ _ _ _ _ Hsw Hb Ha)|eauto].
Qed.

(** X13. An iteration of the worker always completes; it keeps the book
    in price-time priority, only appends to the trade log, and changes
    neither the registry nor the running flag. *)
Theorem run_iteration_keeps_priority (now now_reset now_match now_gtd : Z)
    (w : WorkerClock) (e : MatchingEngine) :
  book_wf (orderBook e) ->
  exists w' e' new,
    run_iteration now now_reset now_match now_gtd w e = Some (w', e')
    /\ book_wf (orderBook e')
    /\ trades (orderBook e') = trades (orderBook e) ++ new
    /\ instrumentManager e' = instrumentManager e
    /\ isRunning e' = isRunning e.
Proof.
  intros Hwf. unfold run_iteration, daily_reset_step, matching_step, gtd_step.
  destruct (daily_reset_due now w); simpl.
  all: match goal with
       | |- context [matchOrders ?t ?ob ?s] =>
           destruct (matchOrders_total t ob s) as [[[n ob'] s'] Hm];
           rewrite Hm; destruct (matchOrders_wf _ _ _ _ _ _ Hwf Hm) as [Hwf' [new Ht]]
       end.
  all: destruct (hours 1 <? _); simpl; eexists _, _, new.
  all: (split; [reflexivity|]); simpl; split_and!; auto.
  all: destruct Hwf' as [Hb Ha]; split; by apply expire_side_wf.
Qed.



(** ** Constructors *)


Lemma string_take_length n s : (String.length (string_take n s) <= n)%nat.
Proof.
  revert s. induction n as [|n IH]; intros [|c s]; simpl; try lia.
  specialize (IH s). lia.
Qed.

Lemma string_take_prefix n s : exists tail, s = String.append (string_take n s) tail.
Proof.
  revert s. induction n as [|n IH]; intros [|c s]; simpl; try (eexists; reflexivity).
  destruct (IH s) as [tail Ht]. exists tail.
  change (String c s = String c (String.append (string_take n s) tail)). by rewrite <- Ht.
Qed.

Lemma string_take_all n s : (String.length s <= n)%nat -> string_take n s = s.
Proof.
  revert s. induction n as [|n IH]; intros [|c s] H; simpl in *; try reflexivity; try lia.
  f_equal. apply IH. lia.
Qed.

Lemma c_str_length s : (String.length (c_str s) <= String.length s)%nat.
Proof.
  induction s as [|c s IH]; simpl; [lia|].
  destruct (Ascii.eqb c Ascii.zero); simpl; lia.
Qed.

(** X16. The constructor of an instrument keeps at most 49 characters of
    the name: the stored name is the beginning of the given name up to
    its first NUL, it is the given name itself when that has at most 49
    characters and no NUL, and the three fields the registry compares are
    stored as given. *)
Theorem Instrument_new_name_bounded
    (idinstrument : Z) (mic cur name : string) (issue : Z) (state : State) (refprice : Q)
    (idtradinggroup lotsize pricedecimal currentorderid currenttradeid idapf : Z) :
  let i := Instrument_new idinstrument mic cur name issue state refprice idtradinggroup
             lotsize pricedecimal currentorderid currenttradeid idapf in
  (String.length (Instrument.name i) <= 49)%nat
  /\ (exists tail, c_str name = String.append (Instrument.name i) tail)
  /\ (c_str name = name -> (String.length name <= 49)%nat -> Instrument.name i = name)
  /\ instrument_key i = (idinstrument, mic, cur).
Proof.
  intros i. simpl. unfold strncpy_name. split_and!.
  - apply string_take_length.
  - apply string_take_prefix.
  - intros Hc Hlen. rewrite Hc. by apply string_take_all.
  - reflexivity.
Qed.

(** ** Starting and stopping *)

(** X17. The transitions of the engine are idempotent: starting a
    running engine and stopping a stopped one change nothing, so that a
    second start does not reset the statistics again; neither transition
    touches book or registry, and stopping keeps the statistics. *)
Theorem start_stop_idempotent (now1 now2 : Z) (e : MatchingEngine) :
  (isRunning e = true -> start now1 e = e)
  /\ (isRunning e = false -> stop e = e)
  /\ start now2 (start now1 e) = start now1 e
  /\ stop (stop e) = stop e
  /\ isRunning (start now1 e) = true
  /\ isRunning (stop e) = false
  /\ stats (stop e) = stats e
  /\ orderBook (start now1 e) = orderBook e /\ orderBook (stop e) = orderBook e
  /\ instrumentManager (start now1 e) = instrumentManager e
  /\ instrumentManager (stop e) = instrumentManager e.
Proof.
  unfold start, stop. destruct e as [ob im [|] s]; simpl; split_and!; auto; discriminate.
Qed.

(** ** The listing of the GTD orders *)

Lemma timeToExpiry_nonneg now o : now < Order.expirationDate o -> 0 <= timeToExpiry now o.
Proof.
  intros H. unfold timeToExpiry. apply Z.quot_pos; [lia|]. unfold hours, seconds. lia.
Qed.

Lemma gtd_lines_ids now side m :
  (λ l : GTDLine, l.1.1.1.2) <$> gtd_lines now side m
  = Order.idorder <$> filter (λ o, is_gtd o) (side_orders m).
Proof. unfold gtd_lines. rewrite <- list_fmap_compose. reflexivity. Qed.

Lemma gtd_lines_hours now side m :
  Forall (λ o, is_gtd o = true -> now < Order.expirationDate o) (side_orders m) ->
  Forall (λ l : GTDLine, 0 <= l.2) (gtd_lines now side m).
Proof.
  intros H. unfold gtd_lines. apply Forall_fmap.
  apply Forall_forall. intros o Ho. apply list_elem_of_filter in Ho as [Hg Ho].
  simpl. apply timeToExpiry_nonneg.
  rewrite Forall_forall in H. apply (H o Ho). by apply Is_true_true.
Qed.

Lemma expire_side_unexpired now m :
  Forall (λ o, is_gtd o = true -> now < Order.expirationDate o)
         (side_orders (expire_side now m)).
Proof.
  rewrite side_orders_expire. apply Forall_forall. intros o Ho Hg.
  apply list_elem_of_filter in Ho as [Hlive _].
  destruct (expired now o) eqn:E; [exact (False_rect _ Hlive)|].
  unfold expired, is_gtd in *. destruct (Order.timeinforce o); [|discriminate].
  by apply Z.leb_gt in E.
Qed.

(** X18. The listing of GTD orders prints one line for every resting
    GTD order and none for a DAY order, bids first and in the order of
    the book; its flag is false exactly when no GTD order rests; and
    right after the expiry sweep, at the same time, no line shows a
    negative number of hours. *)
Theorem displayGTDOrders_lists_live_orders (now : Z) (e : MatchingEngine) :
  (λ l : GTDLine, l.1.1.1.2) <$> (displayGTDOrders now e).1
  = Order.idorder <$> filter (λ o, is_gtd o) (book_orders (orderBook e))
  /\ ((displayGTDOrders now e).2 = false
      <-> forall o, o ∈ book_orders (orderBook e) -> Order.timeinforce o = DAY)
  /\ Forall (λ l : GTDLine, 0 <= l.2) (displayGTDOrders now (checkGTDOrders now e)).1.
Proof.
  assert ((λ l : GTDLine, l.1.1.1.2) <$> (displayGTDOrders now e).1
          = Order.idorder <$> filter (λ o, is_gtd o) (book_orders (orderBook e))) as Hids.
  { unfold displayGTDOrders, book_orders. cbn [fst].
    by rewrite fmap_app, !gtd_lines_ids, filter_app, fmap_app. }
  split_and!.
  - exact Hids.
  - assert ((displayGTDOrders now e).2 = false <-> (displayGTDOrders now e).1 = []) as ->.
    { unfold displayGTDOrders. cbn [fst snd]. destruct (_ ++ _); split; auto; discriminate. }
    assert ((displayGTDOrders now e).1 = []
            <-> filter (λ o, is_gtd o) (book_orders (orderBook e)) = []) as ->.
    { split; intros Hnil.
      - rewrite Hnil in Hids. symmetry in Hids. by apply fmap_nil_inv in Hids.
      - rewrite Hnil in Hids. by apply fmap_nil_inv in Hids. }
    split.
    + intros Hnil o Ho. destruct (Order.timeinforce o) eqn:Ht; [|reflexivity].
      exfalso. apply (filter_nil_not_elem_of _ _ o Hnil); [|exact Ho].
      unfold is_gtd. by rewrite Ht.
    + intros Hall. destruct (filter _ _) as [|x xs] eqn:E; [reflexivity|]. exfalso.
      assert (x ∈ filter (λ o, is_gtd o) (book_orders (orderBook e))) as Hin
        by (rewrite E; left).
      apply list_elem_of_filter in Hin as [Hg Hin].
      unfold is_gtd in Hg. rewrite (Hall x Hin) in Hg. exact Hg.
  - unfold displayGTDOrders. cbn [fst]. apply Forall_app.
    split; apply gtd_lines_hours, expire_side_unexpired.
Qed.

(** ** The registry and the bare set *)

Lemma registry_inv_size im :
  registry_inv im -> size (instrumentSet im) = length (instruments im).
Proof.
  intros [Hset Hnd].
  assert (instrumentSet im = list_to_set (instrument_key <$> instruments im)) as ->.
  { apply set_eq. intros k. rewrite Hset, elem_of_list_to_set. reflexivity. }
  rewrite size_list_to_set by exact Hnd. apply length_fmap.
Qed.

(** X19. After any sequence of registrations the set of triples and the
    vector of instruments have the same number of entries, which is the
    number of registrations that returned true. *)
Theorem addInstruments_size (l : list Instrument.t) :
  size (instrumentSet (addInstruments InstrumentManager_new l).2)
  = length (getInstruments (addInstruments InstrumentManager_new l).2)
  /\ length (getInstruments (addInstruments InstrumentManager_new l).2)
     = length (filter (λ r : bool, r) (addInstruments InstrumentManager_new l).1).
Proof.
  split.
  - apply registry_inv_size, addInstruments_inv, InstrumentManager_new_inv.
  - assert (forall im,
               registry_inv im ->
               length (instruments (addInstruments im l).2)
               = (length (instruments im)
                  + length (filter (λ r : bool, r) (addInstruments im l).1))%nat) as Hgen.
    { induction l as [|i l IH]; intros im Hinv; [simpl; lia|].
      rewrite addInstruments_cons. cbn [fst snd].
      rewrite (IH _ (addInstrument_inv im i Hinv)), filter_cons.
      destruct (decide (instrument_key i ∈ instrument_key <$> instruments im)) as [Hold|Hnew].
      - rewrite addInstrument_conflict by assumption. simpl. lia.
      - rewrite addInstrument_new by assumption. simpl. rewrite length_app. simpl. lia. }
    exact (Hgen _ InstrumentManager_new_inv).
Qed.

(** X20. The function of Utils.cpp on the bare set returns true exactly
    when the triple is new and then holds it; called again with the same
    instrument it returns false and leaves the set; and the registry
    answers and updates its own set exactly as this function does. *)
Theorem Utils_addInstrument_agrees (s : gset InstrumentKey) (im : InstrumentManager)
    (i : Instrument.t) :
  ((Utils_addInstrument s i).1 = true <-> instrument_key i ∉ s)
  /\ (Utils_addInstrument s i).2 = {[ instrument_key i ]} ∪ s
  /\ Utils_addInstrument (Utils_addInstrument s i).2 i = (false, (Utils_addInstrument s i).2)
  /\ (addInstrument im i).1 = (Utils_addInstrument (instrumentSet im) i).1
  /\ instrumentSet (addInstrument im i).2 = (Utils_addInstrument (instrumentSet im) i).2.
Proof.
  unfold Utils_addInstrument, addInstrument. split_and!.
  - destruct (isUniqueInstrument s i) eqn:E; simpl.
    + apply isUniqueInstrument_spec in E. tauto.
    + split; [discriminate|]. intros H. apply isUniqueInstrument_spec in H. congruence.
  - destruct (isUniqueInstrument s i) eqn:E; simpl; [reflexivity|].
    apply not_true_iff_false in E. rewrite isUniqueInstrument_spec in E.
    apply dec_stable in E. apply set_eq. intros k.
    rewrite elem_of_union, elem_of_singleton. split; [auto|intros [->|?]; auto].
  - assert (isUniqueInstrument (if isUniqueInstrument s i
                                then (true, {[ instrument_key i ]} ∪ s) else (false, s)).2 i
            = false) as ->; [|reflexivity].
    apply not_true_iff_false. rewrite isUniqueInstrument_spec.
    destruct (isUniqueInstrument s i) eqn:E; simpl.
    + intros Hn. apply Hn, elem_of_union. left. by apply elem_of_singleton.
    + apply not_true_iff_false in E. by rewrite isUniqueInstrument_spec in E.
  - by destruct (isUniqueInstrument (instrumentSet im) i).
  - by destruct (isUniqueInstrument (instrumentSet im) i).
Qed.

(** ** Where an inserted order rests *)

Section placement.
Variable cmp : Q -> Q -> bool.
Hypothesis cmp_proper :
  forall a a' b b', (a == a')%Q -> (b == b')%Q -> cmp a b = cmp a' b'.
Hypothesis cmp_trans :
  forall a b c, cmp a b = true -> cmp b c = true -> cmp a c = true.
Hypothesis cmp_equiv :
  forall a b, cmp a b = false -> cmp b a = false -> (a == b)%Q.

Lemma side_after_key k m p :
  Forall (λ k', cmp k k' = true) (m.*1) -> side_priced m -> (p == k)%Q ->
  Forall (λ y, cmp p (Order.price y) = true) (side_orders m).
Proof using cmp_proper.
  intros Hk Hp Hpk. apply Forall_forall. intros y Hy.
  apply elem_of_side_orders in Hy as ([k' q'] & Hl & Hy).
  rewrite Forall_forall in Hk. unfold side_priced in Hp. rewrite Forall_forall in Hp.
  pose proof (Hp _ Hl) as Hq. rewrite Forall_forall in Hq. simpl in *.
  rewrite (cmp_proper _ k _ k' Hpk (Hq y Hy)).
  apply Hk. apply list_elem_of_fmap. by exists (k', q').
Qed.

Lemma level_push_back_placed o m :
  keys_sorted cmp m -> side_priced m ->
  placed_by_price cmp o (side_orders m)
                  (side_orders (level_push_back cmp (Order.price o) o m)).
Proof using cmp_proper cmp_trans cmp_equiv.
  unfold keys_sorted. induction m as [|[k q] m IH]; intros Hs Hp.
  - exists [], []. repeat split; constructor.
  - simpl in Hs. apply StronglySorted_cons in Hs as [Hk Hs].
    pose proof Hp as Hp0. apply Forall_cons in Hp as [Hq Hp]. simpl in Hq.
    cbn [level_push_back]. destruct (cmp k (Order.price o)) eqn:Hkp.
    + destruct (IH Hs Hp) as (pre & post & Hbefore & Hafter & Hpre & Hpost).
      exists (q ++ pre), post. rewrite !side_orders_cons, Hbefore, Hafter, <- !app_assoc.
      split_and!; auto. apply Forall_app. split; [|exact Hpre].
      eapply Forall_impl; [exact Hq|]. intros x Hx. left. simpl in Hx.
      by rewrite (cmp_proper _ k _ (Order.price o) Hx (reflexivity _)).
    + destruct (cmp (Order.price o) k) eqn:Hpk.
      * exists [], (q ++ side_orders m). rewrite !side_orders_cons. simpl.
        split_and!; auto. apply Forall_app. split.
        -- eapply Forall_impl; [exact Hq|]. intros y Hy. simpl in Hy.
           by rewrite (cmp_proper _ (Order.price o) _ k (reflexivity _) Hy).
        -- apply Forall_forall. intros y Hy.
           apply elem_of_side_orders in Hy as ([k' q'] & Hl & Hy).
           rewrite Forall_forall in Hk. rewrite Forall_forall in Hp.
           pose proof (Hp _ Hl) as Hq'. rewrite Forall_forall in Hq'. simpl in *.
           rewrite (cmp_proper _ (Order.price o) _ k' (reflexivity _) (Hq' y Hy)).
           apply (cmp_trans _ k); [exact Hpk|].
           apply Hk. apply list_elem_of_fmap. by exists (k', q').
      * pose proof (cmp_equiv _ _ Hpk Hkp) as Heq.
        exists q, (side_orders m). rewrite !side_orders_cons, <- app_assoc. simpl.
        split_and!; auto.
        -- eapply Forall_impl; [exact Hq|]. intros x Hx. right. simpl in Hx.
           by rewrite Hx, Heq.
        -- by apply (side_after_key k).
Qed.
End placement.

(** X21. Inserting an order leaves every resting order where it was and
    puts the new one, on the side of its type, behind all orders at a
    better or the same price and ahead of all orders at a worse price;
    the other side, the trade log and the trade counter are untouched. *)
Theorem addOrder_placed_by_price (ob : OrderBook) (o : Order.t) :
  book_wf ob ->
  match Order.ordertype o with
  | BID =>
      placed_by_price bid_cmp o (side_orders (bidOrders ob))
                      (side_orders (bidOrders (addOrder ob o)))
      /\ askOrders (addOrder ob o) = askOrders ob
  | ASK =>
      placed_by_price ask_cmp o (side_orders (askOrders ob))
                      (side_orders (askOrders (addOrder ob o)))
      /\ bidOrders (addOrder ob o) = bidOrders ob
  end
  /\ trades (addOrder ob o) = trades ob
  /\ nextTradeId (addOrder ob o) = nextTradeId ob
  /\ length (book_orders (addOrder ob o)) = S (length (book_orders ob)).
Proof.
  intros [(Hkb & Hpb & _) (Hka & Hpa & _)].
  pose proof (level_push_back_placed bid_cmp bid_cmp_proper bid_cmp_trans bid_cmp_equiv
                o _ Hkb Hpb) as Hbid.
  pose proof (level_push_back_placed ask_cmp ask_cmp_proper ask_cmp_trans ask_cmp_equiv
                o _ Hka Hpa) as Hask.
  rewrite addOrder_trades, addOrder_nextTradeId. unfold addOrder, book_orders.
  destruct (Order.ordertype o); simpl; (split; [split; [assumption|reflexivity]|]);
    (split; [reflexivity|]); (split; [reflexivity|]).
  - destruct Hbid as (pre & post & -> & -> & _). rewrite !length_app. simpl. lia.
  - destruct Hask as (pre & post & -> & -> & _). rewrite !length_app. simpl. lia.
Qed.

(** ** Orders that can never be accepted *)

Lemma addAndValidateOrder_from_rejects now e o (l : list Instrument.t) :
  (Order.price o <= 0)%Q \/ Order.quantity o <= 0 ->
  addAndValidateOrder_from now e o l = Some (false, e).
Proof.
  intros Hbad. induction l as [|i l IH]; cbn [addAndValidateOrder_from]; [reflexivity|].
  destruct (instrument_matches i o); [|exact IH].
  destruct (validatePrice o i) eqn:Hp; [|reflexivity].
  destruct Hbad as [Hprice|Hqty].
  - unfold validatePrice in Hp. apply Qle_bool_iff in Hprice. rewrite Hprice in Hp.
    discriminate.
  - unfold validateQuantity. apply Z.leb_le in Hqty. by rewrite Hqty.
Qed.

(** X22. An order whose price or whose quantity is not positive is
    rejected on every registry, also one that holds an instrument with a
    zero lot size, and the engine is left as it was: the division by the
    lot size is never reached.  The default-constructed order is such an
    order. *)
Theorem addAndValidateOrder_rejects_nonpositive (now : Z) (e : MatchingEngine) (o : Order.t) :
  ((Order.price o <= 0)%Q \/ Order.quantity o <= 0 ->
   addAndValidateOrder now e o = Some (false, e))
  /\ (forall now1 now2, addAndValidateOrder now e (Order_default now1 now2) = Some (false, e)).
Proof.
  split.
  - apply addAndValidateOrder_from_rejects.
  - intros now1 now2. apply addAndValidateOrder_from_rejects. right. simpl. lia.
Qed.

(** ** The further theorems at the scenarios *)

Ltac by_evaluation := vm_compute; repeat constructor; try discriminate.

Lemma scenario1_book_positive :
  (side_positive (bidOrders scenario1_book) /\ side_positive (askOrders scenario1_book))
  /\ (side_bounded (bidOrders scenario1_book) /\ side_bounded (askOrders scenario1_book)).
Proof. repeat split; by_evaluation. Qed.

Lemma gtd_engine_wf : book_wf (orderBook gtd_engine).
Proof. repeat split; try (repeat constructor; fail); by_evaluation. Qed.

Lemma hollow_book_priced :
  side_priced (bidOrders hollow_book) /\ side_priced (askOrders hollow_book).
Proof. split; repeat constructor. Qed.

Lemma engine0_settled : book_settled (orderBook (engine0 registry1)).
Proof. unfold book_settled. split_and!; try constructor. reflexivity. Qed.

Lemma matchOrders_keeps_quantities_positive_witness :
  (side_positive (bidOrders scenario1_book) /\ side_positive (askOrders scenario1_book))
  /\ exists n ob' s' new,
       matchOrders 0 scenario1_book (zero_stats 0) = Some (n, ob', s')
       /\ trades ob' = trades scenario1_book ++ new
       /\ Forall (λ t, 0 < Trade.quantity t) new
       /\ side_positive (bidOrders ob') /\ side_positive (askOrders ob')
       /\ side_bounded (bidOrders ob') /\ side_bounded (askOrders ob').
Proof.
  destruct scenario1_book_positive as [[Hpb Hpa] [Hb Ha]].
  split; [by split|].
  exact (matchOrders_keeps_quantities_positive 0 scenario1_book (zero_stats 0) Hpb Hpa Hb Ha).
Defined.

Lemma matchOrders_trades_within_limits_witness :
  side_priced (bidOrders scenario1_book)
  /\ exists n ob' s' new,
       matchOrders 0 scenario1_book (zero_stats 0) = Some (n, ob', s')
       /\ trades ob' = trades scenario1_book ++ new
       /\ Forall (λ t, exists b a,
                    b ∈ side_orders (bidOrders scenario1_book)
                    /\ a ∈ side_orders (askOrders scenario1_book)
                    /\ compatible b a = true
                    /\ Trade.buyOrderId t = Order.idorder b
                    /\ Trade.sellOrderId t = Order.idorder a
                    /\ Trade.price t = Order.price a
                    /\ (Order.price a <= Order.price b)%Q) new.
Proof.
  destruct scenario1_book_priced as [Hb Ha]. split; [exact Hb|].
  exact (matchOrders_trades_within_limits 0 scenario1_book (zero_stats 0) Hb Ha).
Defined.

Lemma matchOrders_idempotent_witness :
  side_clean (bidOrders scenario1_book)
  /\ exists n ob' s',
       matchOrders 0 scenario1_book (zero_stats 0) = Some (n, ob', s')
       /\ forall now2 s2, matchOrders now2 ob' s2 = Some (0, ob', s2).
Proof.
  destruct scenario1_book_clean as [Hb Ha]. split; [exact Hb|].
  exact (matchOrders_idempotent 0 scenario1_book (zero_stats 0) Hb Ha).
Defined.

Lemma matchOrders_twice_no_crossed_top_witness :
  side_priced (bidOrders hollow_book)
  /\ exists n1 ob1 s1 n2 ob2 s2,
       matchOrders 0 hollow_book (zero_stats 0) = Some (n1, ob1, s1)
       /\ matchOrders 1 ob1 s1 = Some (n2, ob2, s2)
       /\ no_crossed_top ob2.
Proof.
  destruct hollow_book_priced as [Hb Ha]. split; [exact Hb|].
  exact (matchOrders_twice_no_crossed_top 0 1 hollow_book (zero_stats 0) Hb Ha).
Defined.

Lemma matchOrders_detached_keeps_stats_witness :
  matchingEngine detached_book = false
  /\ exists n ob', matchOrders 0 detached_book (zero_stats 0) = Some (n, ob', zero_stats 0).
Proof.
  split; [reflexivity|].
  exact (matchOrders_detached_keeps_stats 0 detached_book (zero_stats 0) eq_refl).
Defined.


Lemma submissions_keep_book_settled_witness :
  Forall (λ i, Instrument.lotsize i <> 0) (getInstruments (instrumentManager (engine0 registry1)))
  /\ book_settled (orderBook (engine0 registry1))
  /\ exists rs e',
       submit_all 0 (engine0 registry1) [bid1001; ask2001; bid_off_lot; bid1002] = Some (rs, e')
       /\ length rs = 4%nat
       /\ instrumentManager e' = instrumentManager (engine0 registry1)
       /\ book_settled (orderBook e').
Proof.
  assert (Forall (λ i, Instrument.lotsize i <> 0)
                 (getInstruments (instrumentManager (engine0 registry1)))) as Hlot
    by by_evaluation.
  split; [exact Hlot|]. split; [exact engine0_settled|].
  exact (submissions_keep_book_settled 0 (engine0 registry1)
           [bid1001; ask2001; bid_off_lot; bid1002] Hlot engine0_settled).
Defined.

Lemma validateQuantity_lot_multiple_witness :
  0 < Order.quantity bid_off_lot /\ Instrument.lotsize (instr 1) <> 0
  /\ ~ (Instrument.lotsize (instr 1) | Order.quantity bid_off_lot)
  /\ validateQuantity bid_off_lot (instr 1) = Some false.
Proof.
  assert (0 < Order.quantity bid_off_lot) as Hq by reflexivity.
  assert (Instrument.lotsize (instr 1) <> 0) as Hl by discriminate.
  assert (~ (Instrument.lotsize (instr 1) | Order.quantity bid_off_lot)) as Hnd.
  { intros [z Hz]. simpl in Hz. lia. }
  destruct (validateQuantity_lot_multiple bid_off_lot (instr 1)) as (_ & _ & Hdiv).
  destruct (Hdiv Hq Hl) as [_ Hfalse].
  split; [exact Hq|]. split; [exact Hl|]. split; [exact Hnd|]. by apply Hfalse.
Defined.


Lemma checkGTDOrders_absorbs_earlier_witness :
  hours 1 <= hours 2
  /\ checkGTDOrders (hours 2) (checkGTDOrders (hours 1) gtd_engine)
     = checkGTDOrders (hours 2) gtd_engine.
Proof.
  assert (hours 1 <= hours 2) as Hle by (vm_compute; discriminate).
  split; [exact Hle|]. exact (checkGTDOrders_absorbs_earlier _ _ gtd_engine Hle).
Defined.

Lemma matching_step_counts_witness :
  matchingEngine (orderBook scenario1_engine) = true
  /\ exists e' new,
       matching_step 0 scenario1_engine = Some e'
       /\ trades (orderBook e') = trades (orderBook scenario1_engine) ++ new
       /\ matchingAttempts (stats e') = wrap_int (matchingAttempts (stats scenario1_engine) + 1)
       /\ match new with
          | [] =>
              dailyTradeCount (stats e') = dailyTradeCount (stats scenario1_engine)
              /\ totalTradeCount (stats e') = totalTradeCount (stats scenario1_engine)
              /\ successfulMatches (stats e') = successfulMatches (stats scenario1_engine)
          | _ :: _ =>
              dailyTradeCount (stats e')
              = wrap_int (dailyTradeCount (stats scenario1_engine) + Z.of_nat (length new))
              /\ totalTradeCount (stats e')
                 = wrap_int (totalTradeCount (stats scenario1_engine) + Z.of_nat (length new))
              /\ successfulMatches (stats e')
                 = wrap_int (successfulMatches (stats scenario1_engine)
                             + 2 * Z.of_nat (length new))
          end.
Proof.
  split; [reflexivity|]. exact (matching_step_counts 0 scenario1_engine eq_refl).
Defined.

Lemma run_iteration_keeps_priority_witness :
  book_wf (orderBook gtd_engine)
  /\ exists w' e' new,
       run_iteration (hours 25) (hours 25) (hours 25) (hours 25) day_old_clock gtd_engine
       = Some (w', e')
       /\ book_wf (orderBook e')
       /\ trades (orderBook e') = trades (orderBook gtd_engine) ++ new
       /\ instrumentManager e' = instrumentManager gtd_engine
       /\ isRunning e' = isRunning gtd_engine.
Proof.
  split; [exact gtd_engine_wf|].
  exact (run_iteration_keeps_priority (hours 25) (hours 25) (hours 25) (hours 25)
           day_old_clock gtd_engine gtd_engine_wf).
Defined.



Lemma Instrument_new_name_bounded_witness :
  let i := Instrument_new 1 XPAR EUR long_name 20220101 ACTIVE 150 1001 100 2 1 1 2022 in
  String.length long_name = 60%nat
  /\ (String.length (Instrument.name i) <= 49)%nat
  /\ Instrument.name (Instrument_new 1 XPAR EUR "AAPL" 20220101 ACTIVE 150 1001 100 2 1 1 2022)
     = "AAPL".
Proof.
  intros i. split; [reflexivity|]. split.
  - apply (Instrument_new_name_bounded 1 XPAR EUR long_name 20220101 ACTIVE 150 1001 100 2 1 1
             2022).
  - destruct (Instrument_new_name_bounded 1 XPAR EUR "AAPL" 20220101 ACTIVE 150 1001 100 2 1 1
                2022) as (_ & _ & Hsame & _).
    apply Hsame; [reflexivity|simpl; lia].
Defined.

Lemma start_stop_idempotent_witness :
  isRunning scenario1_engine = true
  /\ start 9 scenario1_engine = scenario1_engine
  /\ stop (stop scenario1_engine) = stop scenario1_engine.
Proof.
  destruct (start_stop_idempotent 9 9 scenario1_engine) as (Hstart & _ & _ & Hstop & _).
  split; [reflexivity|]. split; [exact (Hstart eq_refl)|exact Hstop].
Defined.

Lemma displayGTDOrders_lists_live_orders_witness :
  (displayGTDOrders 0 gtd_engine).2 = true
  /\ (displayGTDOrders (hours 2) (checkGTDOrders (hours 2) gtd_engine)).2 = false
  /\ Forall (λ l : GTDLine, 0 <= l.2) (displayGTDOrders 0 (checkGTDOrders 0 gtd_engine)).1.
Proof.
  destruct (displayGTDOrders_lists_live_orders 0 gtd_engine) as (_ & _ & Hhours).
  split; [reflexivity|]. split; [reflexivity|exact Hhours].
Defined.

Lemma addOrder_placed_by_price_witness :
  book_wf scenario2_book
  /\ placed_by_price bid_cmp bid1003 (side_orders (bidOrders scenario2_book))
                     (side_orders (bidOrders (addOrder scenario2_book bid1003)))
  /\ length (book_orders (addOrder scenario2_book bid1003)) = 3%nat.
Proof.
  destruct (addOrder_placed_by_price scenario2_book bid1003 scenario2_book_wf)
    as ([Hplaced _] & _ & _ & Hlen).
  split; [exact scenario2_book_wf|]. split; [exact Hplaced|exact Hlen].
Defined.

Lemma addAndValidateOrder_rejects_nonpositive_witness :
  Order.quantity (day_order 1007 BID 1 150 0 0) <= 0
  /\ addAndValidateOrder 0 scenario1_engine (day_order 1007 BID 1 150 0 0)
     = Some (false, scenario1_engine).
Proof.
  assert (Order.quantity (day_order 1007 BID 1 150 0 0) <= 0) as Hq by (simpl; lia).
  destruct (addAndValidateOrder_rejects_nonpositive 0 scenario1_engine
              (day_order 1007 BID 1 150 0 0)) as [Hrej _].
  split; [exact Hq|]. apply Hrej. by right.
Defined.
